(** * CurlMan: the curl-command parser and the request/response analysers

    A shallow embedding of [src/services/curlParser.js],
    [src/services/requestAnalyzer.js] and [src/services/responseAnalyzer.js].

    JavaScript strings are sequences of UTF-16 code units; they are modelled
    as [list N], one number per code unit.  Plain objects used as
    dictionaries ([requestData.headers], [response.headers]) are modelled as
    [gmap]s from property name to value, that is, as their own string-keyed
    data properties.  Of what a plain object inherits from
    [Object.prototype] the code can meet one thing, the accessor
    [__proto__]: assigning a string to it stores nothing (see [setHeader]). *)

From Stdlib Require Import NArith Ascii String.
From stdpp Require Import base option list gmap.

Local Open Scope N_scope.

(** ** Strings *)

Abbreviation jsstring := (list N).

(** A literal of the source, given by its ASCII text. *)
Definition js (s : string) : jsstring :=
  N_of_ascii <$> list_ascii_of_string s.

Definition DQUOTE : N := 34.
Definition SQUOTE : N := 39.
Definition SPACE : N := 32.
Definition COLON : N := 58.

(** ECMAScript WhiteSpace and LineTerminator code points: the class [\s] of
    regular expressions and the characters removed by [String.prototype.trim]. *)
Definition isWhiteSpace (c : N) : bool :=
  (9 <=? c) && (c <=? 13) || (c =? 32) || (c =? 160) || (c =? 5760)
  || (8192 <=? c) && (c <=? 8202) || (c =? 8232) || (c =? 8233)
  || (c =? 8239) || (c =? 8287) || (c =? 12288) || (c =? 65279).

(** The class of the two quote characters, double and single. *)
Definition isQuote (c : N) : bool := (c =? DQUOTE) || (c =? SQUOTE).

Fixpoint dropWhile {A} (p : A → bool) (l : list A) : list A :=
  match l with
  | [] => []
  | x :: l' => if p x then dropWhile p l' else l
  end.

Fixpoint takeWhile {A} (p : A → bool) (l : list A) : list A :=
  match l with
  | [] => []
  | x :: l' => if p x then x :: takeWhile p l' else []
  end.

(** [s.trim()] *)
Definition trim (s : jsstring) : jsstring :=
  reverse (dropWhile isWhiteSpace (reverse (dropWhile isWhiteSpace s))).

(** [s.startsWith(p)] *)
Fixpoint startsWith (s p : jsstring) : bool :=
  match p, s with
  | [], _ => true
  | d :: p', c :: s' => (c =? d) && startsWith s' p'
  | _ :: _, [] => false
  end.

(** [s.split(sep)] for a one-character separator: never empty, one more
    piece than there are separators. *)
Fixpoint split (sep : N) (s : jsstring) : list jsstring :=
  match s with
  | [] => [[]]
  | c :: s' =>
      if c =? sep then [] :: split sep s'
      else match split sep s' with
           | piece :: pieces => (c :: piece) :: pieces
           | [] => [[c]]
           end
  end.

(** [pieces.join(sep)] *)
Fixpoint join (sep : jsstring) (pieces : list jsstring) : jsstring :=
  match pieces with
  | [] => []
  | [piece] => piece
  | piece :: pieces' => piece ++ sep ++ join sep pieces'
  end.

(** [s.replace(/\s+/g, ' ')]: every maximal run of white space becomes one
    space.  [inRun] tells that the previous character was white space. *)
Fixpoint replaceSpaceRuns (inRun : bool) (s : jsstring) : jsstring :=
  match s with
  | [] => []
  | c :: s' =>
      if isWhiteSpace c
      then if inRun then replaceSpaceRuns true s'
           else SPACE :: replaceSpaceRuns true s'
      else c :: replaceSpaceRuns false s'
  end.

(** [s.replace(re, '')] where the global [re] is the class of the two quote
    characters: all of them are deleted. *)
Definition removeQuotes (s : jsstring) : jsstring :=
  filter (λ c, isQuote c = false) s.

(** [s.replace(':', '')]: a string pattern replaces the first occurrence only. *)
Fixpoint removeFirst (x : N) (s : jsstring) : jsstring :=
  match s with
  | [] => []
  | c :: s' => if c =? x then s' else c :: removeFirst x s'
  end.

(** ** The tokenising expression

    [/(?:[^\s\x22']+|\x22[^\x22]*\x22|'[^']*')+/g], where [\x22] stands
    for the double quote of the source text. *)

(** First alternative, [[^\s\x22']+]: the longest run of characters that are
    neither white space nor quotes; it must not be empty. *)
Definition bareRun (s : jsstring) : option (jsstring * jsstring) :=
  let p c := negb (isWhiteSpace c || isQuote c) in
  match takeWhile p s with
  | [] => None
  | run => Some (run, dropWhile p s)
  end.

(** Second and third alternatives, [\x22[^\x22]*\x22] and ['[^']*']: an opening quote
    [q], everything up to the next [q], and that [q].  There is no match when
    the quote is never closed. *)
Definition quotedSpan (q : N) (s : jsstring) : option (jsstring * jsstring) :=
  match s with
  | c :: s' =>
      if c =? q then
        match dropWhile (λ d, negb (d =? q)) s' with
        | [] => None
        | _ :: rest => Some (q :: takeWhile (λ d, negb (d =? q)) s' ++ [q], rest)
        end
      else None
  | [] => None
  end.

(** One iteration of the group: the alternatives in their order. *)
Definition alternative (s : jsstring) : option (jsstring * jsstring) :=
  match bareRun s with
  | Some r => Some r
  | None =>
      match quotedSpan DQUOTE s with
      | Some r => Some r
      | None => quotedSpan SQUOTE s
      end
  end.

(** The greedy repetition [(?: ... )+] started at the head of [s]: what it
    matches and what is left.  Every iteration consumes a character, so
    [length s] iterations are always enough. *)
Fixpoint iterations (fuel : nat) (s : jsstring) : jsstring * jsstring :=
  match fuel with
  | O => ([], s)
  | S fuel' =>
      match alternative s with
      | None => ([], s)
      | Some (m, rest) =>
          let '(ms, rest') := iterations fuel' rest in (m ++ ms, rest')
      end
  end.

Definition matchAt (s : jsstring) : option (jsstring * jsstring) :=
  match iterations (length s) s with
  | ([], _) => None
  | (m, rest) => Some (m, rest)
  end.

(** The global scan: match at the current position, resume after the match;
    where nothing matches, move one character on. *)
Fixpoint scan (fuel : nat) (s : jsstring) : list jsstring :=
  match fuel with
  | O => []
  | S fuel' =>
      match s with
      | [] => []
      | _ :: s' =>
          match matchAt s with
          | Some (m, rest) => m :: scan fuel' rest
          | None => scan fuel' s'
          end
      end
  end.

(** [s.match(re)] with the [g] flag: [null] when there is no match at all,
    otherwise the array of all matches. *)
Definition matchWords (s : jsstring) : option (list jsstring) :=
  match scan (length s) s with
  | [] => None
  | parts => Some parts
  end.

(** ** JavaScript values, as far as the parser's guard needs them *)

Inductive value :=
  | Boolean (b : bool)
  | Str (s : jsstring).

(** Truthiness: of strings, only the empty one is falsy. *)
Definition ToBoolean (v : value) : bool :=
  match v with
  | Boolean b => b
  | Str s => bool_decide (s ≠ [])
  end.

(** The operator [!]: always a Boolean. *)
Definition Not (v : value) : value := Boolean (negb (ToBoolean v)).

(** The operator [===]: values of different types are never equal. *)
Definition StrictEquals (v w : value) : bool :=
  match v, w with
  | Boolean b, Boolean c => bool_decide (b = c)
  | Str s, Str t => bool_decide (s = t)
  | _, _ => false
  end.

(** A completion: a returned value or a thrown [Error] with its message. *)
Inductive completion (A : Type) :=
  | Return (a : A)
  | Throw (message : jsstring).
Arguments Return {A} a.
Arguments Throw {A} message.

(** ** curlParser.js *)

Record requestData := RequestData {
  method : jsstring;
  url : jsstring;
  headers : gmap (list N) (list N);
  data : option (list N);
  params : gmap (list N) (list N)
}.

Definition setUrl (r : requestData) (u : jsstring) : requestData :=
  RequestData (method r) u (headers r) (data r) (params r).
Definition setMethod (r : requestData) (m : jsstring) : requestData :=
  RequestData m (url r) (headers r) (data r) (params r).
Definition setData (r : requestData) (d : jsstring) : requestData :=
  RequestData (method r) (url r) (headers r) (Some d) (params r).
(** [requestData.headers[key] = value], the value being a string.  The
    object is a plain [{}]: the assignment creates or overwrites an own
    property for every key but [__proto__], where it reaches the setter
    inherited from [Object.prototype], which ignores a value that is
    neither an object nor [null]; nothing is stored then. *)
Definition setHeader (r : requestData) (key val : jsstring) : requestData :=
  RequestData (method r) (url r)
    (if bool_decide (key = js "__proto__") then headers r
     else <[key:=val]> (headers r))
    (data r) (params r).

(** [URL_REGEX = /^(http|https):\/\/[^ \x22]+$/], tested on a whole string:
    one of the two schemes, [://], then at least one character, none of
    them a space or a double quote. *)
Definition URL_REGEX_test (s : jsstring) : bool :=
  let rest_ok r :=
    bool_decide (r ≠ []) && forallb (λ c, negb ((c =? SPACE) || (c =? DQUOTE))) r in
  startsWith s (js "http://") && rest_ok (drop 7 s)
  || startsWith s (js "https://") && rest_ok (drop 8 s).

Definition isHeaderFlag (part : jsstring) : bool :=
  bool_decide (part = js "-H") || bool_decide (part = js "--header").
Definition isRequestFlag (part : jsstring) : bool :=
  bool_decide (part = js "-X") || bool_decide (part = js "--request").
Definition isDataFlag (part : jsstring) : bool :=
  bool_decide (part = js "-d") || bool_decide (part = js "--data")
  || bool_decide (part = js "--data-raw").

Section Parser.

(** [String.prototype.toLowerCase] and [toUpperCase] follow the Unicode case
    tables of the engine; the parser is embedded over any such pair. *)
Variable toLowerCase toUpperCase : list N → list N.

(** The [for] loop over [parts], from the current index on: [parts] is
    what remains to be read, [part :: rest] the token at index [i] and its
    successors, and [parts[++i]] the head of [rest]. *)
Fixpoint forParts (r : requestData) (parts : list jsstring)
    : completion requestData :=
  match parts with
  | [] => Return r
  | part :: rest =>
      if negb (startsWith part (js "-")) then
        forParts (setUrl r (removeQuotes part)) rest
      else if isHeaderFlag part then
        match rest with
        | [] => Throw (js "Missing value for " ++ part)
        | next :: rest' =>
            let headerLine := removeQuotes next in
            let pieces := split COLON headerLine in
            let key := hd [] pieces in
            let val := tl pieces in
            forParts (setHeader r (trim key) (trim (join (js ":") val))) rest'
        end
      else if isRequestFlag part then
        match rest with
        | [] => Throw (js "Missing value for " ++ part)
        | next :: rest' => forParts (setMethod r (toUpperCase next)) rest'
        end
      else if isDataFlag part then
        match rest with
        | [] => Throw (js "Missing value for " ++ part)
        | next :: rest' =>
            let r1 := setData r (removeQuotes next) in
            let r2 := if bool_decide (method r1 = js "GET")
                      then setMethod r1 (js "POST") else r1 in
            forParts r2 rest'
        end
      else forParts r rest
  end.

Definition initialRequest : requestData :=
  RequestData (js "GET") [] ∅ None ∅.

(** The body of the [try] block, after [parts] has been computed. *)
Definition parseParts (parts : option (list jsstring))
    : completion requestData :=
  match parts with
  | None => Throw (js "Command must start with 'curl'")
  | Some parts =>
      if StrictEquals (Not (Str (toLowerCase (hd [] parts)))) (Str (js "curl"))
      then Throw (js "Command must start with 'curl'")
      else
        match forParts initialRequest (drop 1 parts) with
        | Throw m => Throw m
        | Return r =>
            if negb (ToBoolean (Str (url r))) then
              Throw (js "No URL specified in curl command")
            else if negb (URL_REGEX_test (url r)) then
              Throw (js "Invalid URL format")
            else Return r
        end
  end.

(** [curlCommand.trim().replace(/\s+/g, ' ')] and then the tokens. *)
Definition tokens (curlCommand : jsstring) : option (list jsstring) :=
  matchWords (replaceSpaceRuns false (trim curlCommand)).

Definition parseCurlCommand (curlCommand : jsstring)
    : completion requestData :=
  match parseParts (tokens curlCommand) with
  | Return r => Return r
  | Throw message => Throw (js "Error parsing curl command: " ++ message)
  end.

End Parser.

(** ** requestAnalyzer.js *)

(** The properties of a [URL] object that the analyser reads. *)
Record URLObject := {
  protocol : jsstring;
  host : jsstring;
  pathname : jsstring;
  search : jsstring;
  hash : jsstring
}.

Record urlAnalysis := {
  scheme : jsstring;
  ua_host : jsstring;
  path : jsstring;
  query_params : jsstring;
  fragment : jsstring
}.

Record authentication := Authentication {
  present : bool;
  type : option (list N)
}.

(** The two shapes of [analysis.body]: [{ present: false }] and
    [{ present: true, size_bytes, content_preview }]. *)
Inductive bodyAnalysis :=
  | BodyAbsent
  | BodyPresent (size_bytes : nat) (content_preview : jsstring).

Definition body_present (b : bodyAnalysis) : bool :=
  match b with BodyAbsent => false | BodyPresent _ _ => true end.

Record analysis := {
  a_method : jsstring;
  url_analysis : urlAnalysis;
  headers_count : nat;
  headers_details : gmap (list N) (list N);
  a_authentication : authentication;
  a_body : bodyAnalysis
}.

(** The table [authHeaders]: header, prefix ([null] is [None]), type. *)
Definition authHeaders : list (jsstring * option jsstring * jsstring) :=
  [ (js "Authorization", Some (js "Bearer"), js "Bearer Token");
    (js "Authorization", Some (js "Basic"), js "Basic Auth");
    (js "X-API-Key", None, js "API Key") ].

(** Truthiness of a prefix of the table. *)
Definition prefixSet (prefix : option jsstring) : bool :=
  match prefix with
  | Some p => ToBoolean (Str p)
  | None => false
  end.

(** One turn of the loop over [authHeaders]. *)
Definition authStep (hs : gmap (list N) (list N)) (a : authentication)
    (rule : jsstring * option jsstring * jsstring) : authentication :=
  let '(header, prefix, authType) := rule in
  match hs !! header with
  | Some v =>
      if prefixSet prefix && startsWith v (default [] prefix)
      then Authentication true (Some authType)
      else if negb (prefixSet prefix)
      then Authentication true (Some authType)
      else Authentication true (type a)
  | None => a
  end.

(** *** The size of [new Blob([text])]

    A string part of a Blob is converted to scalar values, a surrogate
    without its partner becoming U+FFFD, and then encoded as UTF-8. *)
Definition isHighSurrogate (c : N) : bool := (55296 <=? c) && (c <=? 56319).
Definition isLowSurrogate (c : N) : bool := (56320 <=? c) && (c <=? 57343).

Fixpoint scalarValues (s : jsstring) : list N :=
  match s with
  | [] => []
  | c :: s' =>
      if isHighSurrogate c then
        match s' with
        | d :: s'' =>
            if isLowSurrogate d
            then (65536 + (c - 55296) * 1024 + (d - 56320)) :: scalarValues s''
            else 65533 :: scalarValues s'
        | [] => [65533]
        end
      else if isLowSurrogate c then 65533 :: scalarValues s'
      else c :: scalarValues s'
  end.

(** The UTF-8 bytes of one scalar value. *)
Definition utf8 (cp : N) : list N :=
  if cp <? 128 then [cp]
  else if cp <? 2048 then [192 + cp / 64; 128 + cp mod 64]
  else if cp <? 65536 then
    [224 + cp / 4096; 128 + (cp / 64) mod 64; 128 + cp mod 64]
  else
    [240 + cp / 262144; 128 + (cp / 4096) mod 64; 128 + (cp / 64) mod 64;
     128 + cp mod 64].

Definition utf8Encode (s : jsstring) : list N := scalarValues s ≫= utf8.

Definition BlobSize (blobParts : list jsstring) : nat :=
  length (blobParts ≫= utf8Encode).

Section RequestAnalyzer.

(** [new URL(text)] is the URL parser of the platform: [None] when it throws. *)
Variable URL : list N → option URLObject.

(** [analyzeRequest]; [None] when [new URL] throws. *)
Definition analyzeRequest (r : requestData) : option analysis :=
  u ← URL (url r);
  let auth := foldl (authStep (headers r)) (Authentication false None) authHeaders in
  let body :=
    match data r with
    | Some d =>
        if ToBoolean (Str d) then
          BodyPresent (BlobSize [d])
            (if (200 <? length d)%nat then take 200 d ++ js "..." else d)
        else BodyAbsent
    | None => BodyAbsent
    end in
  Some {| a_method := method r;
          url_analysis :=
            {| scheme := removeFirst COLON (protocol u);
               ua_host := host u;
               path := pathname u;
               query_params := search u;
               fragment := hash u |};
          headers_count := size (headers r);
          headers_details := headers r;
          a_authentication := auth;
          a_body := body |}.

End RequestAnalyzer.

(** ** responseAnalyzer.js *)

(** A header of a response: one string, or an array of them ([set-cookie]). *)
Inductive headerValue :=
  | Single (s : jsstring)
  | Multiple (l : list jsstring).

(** What [axios] resolves to, as far as the analyser reads it;
    [responseUrl] is [response.request.res.responseUrl], which the code
    takes to be defined (it is under the HTTP adapter of Node). *)
Record response := {
  status : N;
  statusText : jsstring;
  response_headers : gmap (list N) headerValue;
  responseUrl : jsstring
}.

Record securityHeader := SecurityHeader {
  sh_present : bool;
  description : jsstring
}.

(** The object literal [securityHeaders], its properties in source order;
    [name in response.headers] is membership in the domain. *)
Definition securityHeaders {V} (response_headers : gmap (list N) V)
    : list (jsstring * securityHeader) :=
  [ (js "Strict-Transport-Security",
     SecurityHeader
       (bool_decide (js "strict-transport-security" ∈ dom response_headers))
       (js "Enforces secure (HTTPS) connections to the server"));
    (js "X-Frame-Options",
     SecurityHeader
       (bool_decide (js "x-frame-options" ∈ dom response_headers))
       (js "Protects against clickjacking attacks"));
    (js "X-Content-Type-Options",
     SecurityHeader
       (bool_decide (js "x-content-type-options" ∈ dom response_headers))
       (js "Prevents MIME type sniffing"));
    (js "X-XSS-Protection",
     SecurityHeader
       (bool_decide (js "x-xss-protection" ∈ dom response_headers))
       (js "Enables cross-site scripting filter in browsers")) ].

(** The analysis returned by [analyzeResponse], without the fields computed
    from the response body ([content], [raw], [size]) and from the clock
    ([timing]). *)
Record responseAnalysis := {
  status_code : N;
  reason : jsstring;
  ra_headers : gmap (list N) headerValue;
  content_type : headerValue;
  encoding : headerValue;
  redirect_count : N;
  final_url : jsstring;
  cookies : headerValue;
  security_analysis : list (jsstring * securityHeader)
}.

(** [response.headers[name] || fallback]: strings are falsy when empty,
    arrays never. *)
Definition headerOr (hs : gmap (list N) headerValue) (name : jsstring)
    (fallback : headerValue) : headerValue :=
  match hs !! name with
  | Some (Single s) => if ToBoolean (Str s) then Single s else fallback
  | Some (Multiple l) => Multiple l
  | None => fallback
  end.

Section ResponseAnalyzer.

(** The HTTP call: with [validateStatus: () => true] every status resolves;
    only a failure of the transport rejects, with its message. *)
Variable axios : requestData → completion response.

Definition analyzeResponse (r : requestData) : completion responseAnalysis :=
  match axios r with
  | Throw message => Throw (js "Request failed: " ++ message)
  | Return resp =>
      let hs := response_headers resp in
      Return {|
        status_code := status resp;
        reason := statusText resp;
        ra_headers := hs;
        content_type := headerOr hs (js "content-type") (Single []);
        encoding := headerOr hs (js "content-encoding") (Single (js "identity"));
        redirect_count :=
          if bool_decide (responseUrl resp ≠ url r) then 1 else 0;
        final_url := responseUrl resp;
        cookies := headerOr hs (js "set-cookie") (Multiple []);
        security_analysis := securityHeaders hs |}
  end.

End ResponseAnalyzer.

(** ** Notions used to state the properties *)

(** Case conversion on the ASCII letters, where every engine agrees; used to
    run the parser on ASCII commands and to compare header names. *)
Definition asciiUpper (s : jsstring) : jsstring :=
  (λ c, if (97 <=? c) && (c <=? 122) then c - 32 else c) <$> s.
Definition asciiLower (s : jsstring) : jsstring :=
  (λ c, if (65 <=? c) && (c <=? 90) then c + 32 else c) <$> s.

(** A URL constructor for running the analyser on plain absolute URLs:
    [scheme://host/path?query#fragment] cut at its delimiters. *)
Definition plainURL (s : jsstring) : option URLObject :=
  if URL_REGEX_test s then
    let isNot (x : N) (c : N) := negb (c =? x) in
    let inHost c := negb ((c =? 47) || (c =? 63) || (c =? 35)) in
    let inPath c := negb ((c =? 63) || (c =? 35)) in
    let afterScheme := drop 3 (dropWhile (isNot COLON) s) in
    let afterHost := dropWhile inHost afterScheme in
    let afterPath := dropWhile inPath afterHost in
    Some {| protocol := takeWhile (isNot COLON) s ++ [COLON];
            host := takeWhile inHost afterScheme;
            pathname := match takeWhile inPath afterHost with
                        | [] => [47]
                        | p => p
                        end;
            search := takeWhile (isNot 35) afterPath;
            hash := dropWhile (isNot 35) afterPath |}
  else None.

(** A token that starts with a hyphen is read as a flag. *)
Definition isFlag (part : jsstring) : bool := startsWith part (js "-").

(** The flags that take the next token as their value. *)
Definition takesValue (part : jsstring) : bool :=
  isHeaderFlag part || isRequestFlag part || isDataFlag part.

(** The tokens that the loop reads in URL position: those that are not
    flags and are not the value of a flag. *)
Fixpoint bareTokens (parts : list jsstring) : list jsstring :=
  match parts with
  | [] => []
  | part :: rest =>
      if negb (isFlag part) then part :: bareTokens rest
      else if takesValue part then
        match rest with
        | [] => []
        | _ :: rest' => bareTokens rest'
        end
      else bareTokens rest
  end.

(** A header line cut at its first colon. *)
Definition beforeColon (line : jsstring) : jsstring :=
  takeWhile (λ c, negb (c =? COLON)) line.
Definition afterColon (line : jsstring) : jsstring :=
  drop 1 (dropWhile (λ c, negb (c =? COLON)) line).

(** A rule of [authHeaders] matches when its header is there and, if the
    rule has a prefix, the value starts with it. *)
Definition ruleMatches (hs : gmap (list N) (list N))
    (rule : jsstring * option jsstring * jsstring) : bool :=
  match hs !! rule.1.1 with
  | Some v =>
      match rule.1.2 with
      | Some p => startsWith v p
      | None => true
      end
  | None => false
  end.

(** The type named by the last matching rule, in table order. *)
Definition lastMatching (hs : gmap (list N) (list N)) : option jsstring :=
  snd <$> last (List.filter (ruleMatches hs) authHeaders).

(** The names under which the audit reports. *)
Definition auditedHeaders : list jsstring :=
  [ js "Strict-Transport-Security"; js "X-Frame-Options";
    js "X-Content-Type-Options"; js "X-XSS-Protection" ].

Definition noQuote (s : jsstring) : Prop := Forall (λ c, isQuote c = false) s.

(** The descriptor holds no quote character in its URL, its body, or the
    names and values of its headers. *)
Definition quoteFree (r : requestData) : Prop :=
  noQuote (url r)
  ∧ (∀ d, data r = Some d → noQuote d)
  ∧ (∀ k v, headers r !! k = Some v → noQuote k ∧ noQuote v).

(** The values of the flags selected by [sel], in the order in which the
    loop reads them: the token after a value-taking flag in flag position. *)
Fixpoint flagValues (sel : jsstring → bool) (parts : list jsstring)
    : list jsstring :=
  match parts with
  | [] => []
  | part :: rest =>
      if negb (isFlag part) then flagValues sel rest
      else if takesValue part then
        match rest with
        | [] => []
        | next :: rest' =>
            if sel part then next :: flagValues sel rest'
            else flagValues sel rest'
        end
      else flagValues sel rest
  end.

(** The name and the value that a header token stands for. *)
Definition headerName (token : jsstring) : jsstring :=
  trim (beforeColon (removeQuotes token)).
Definition headerText (token : jsstring) : jsstring :=
  trim (afterColon (removeQuotes token)).

(** A character that is neither white space nor a quote. *)
Definition plainChar (c : N) : Prop :=
  isWhiteSpace c = false ∧ isQuote c = false.

(** A non-empty word of such characters. *)
Definition plainWord (w : jsstring) : Prop := w ≠ [] ∧ Forall plainChar w.

(** ** components/CurlAnalyzer.js *)

(** The value kept in [analysisData]: the object with the properties
    [request] and [response]. *)
Record analysisPair := {
  ad_request : analysis;
  ad_response : responseAnalysis
}.

(** The state of the component, one field per [useState]. *)
Record componentState := {
  curlCommand : jsstring;
  loading : bool;
  error : jsstring;
  analysisData : option analysisPair;
  tabValue : N
}.

Section CurlAnalyzer.

Variable toLowerCase toUpperCase : list N → list N.
Variable URL : list N → option URLObject.
(** The message of the error that [new URL(text)] throws. *)
Variable URLError : list N → list N.
Variable axios : requestData → completion response.

(** The [try] block of [handleAnalyze]: the three stages in their order,
    the first error ending the block. *)
Definition tryAnalyze (command : jsstring) : completion analysisPair :=
  match parseCurlCommand toLowerCase toUpperCase command with
  | Throw message => Throw message
  | Return parsedRequest =>
      match analyzeRequest URL parsedRequest with
      | None => Throw (URLError (url parsedRequest))
      | Some requestInfo =>
          match analyzeResponse axios parsedRequest with
          | Throw message => Throw message
          | Return responseInfo =>
              Return {| ad_request := requestInfo; ad_response := responseInfo |}
          end
      end
  end.

(** The state once [handleAnalyze] has run to its end: [setLoading(true)]
    and [setError('')] first, then [setAnalysisData] at the end of the
    [try] block or [setError(err.message)] in [catch], and
    [setLoading(false)] in [finally]. *)
Definition handleAnalyze (s : componentState) : componentState :=
  match tryAnalyze (curlCommand s) with
  | Return result =>
      {| curlCommand := curlCommand s; loading := false; error := [];
         analysisData := Some result; tabValue := tabValue s |}
  | Throw message =>
      {| curlCommand := curlCommand s; loading := false; error := message;
         analysisData := analysisData s; tabValue := tabValue s |}
  end.

End CurlAnalyzer.

(** ** Sample inputs *)

Definition plainGET (u : jsstring) : requestData :=
  RequestData (js "GET") u ∅ None ∅.

Definition exampleCom : URLObject :=
  {| protocol := js "https:"; host := js "example.com"; pathname := js "/";
     search := []; hash := [] |}.

Definition withHeaders (hs : gmap (list N) (list N)) : requestData :=
  RequestData (js "GET") (js "https://example.com") hs None ∅.

Definition withBody (d : jsstring) : requestData :=
  RequestData (js "POST") (js "https://example.com") ∅ (Some d) ∅.

(** The token of a single-quoted JSON text with double quotes inside. *)
Definition jsonToken : jsstring :=
  js "'{" ++ [DQUOTE] ++ js "a" ++ [DQUOTE] ++ js ":1}'".

(** A server that answers 500 and sends no header. *)
Definition serverError : response :=
  {| status := 500; statusText := js "Internal Server Error";
     response_headers := ∅; responseUrl := js "https://example.com" |}.

(** The component before the first analysis, with [command] typed in. *)
Definition idleState (command : jsstring) : componentState :=
  {| curlCommand := command; loading := false; error := [];
     analysisData := None; tabValue := 0 |}.

(** A transport that always answers with [serverError], and one that
    always fails. *)
Definition answering : requestData → completion response :=
  λ _, Return serverError.
Definition unreachable : requestData → completion response :=
  λ _, Throw (js "Network Error").

Definition invalidURL : list N → list N := λ _, js "Invalid URL".

(** * Properties *)

(** ** Strings *)

Lemma split_nonempty sep s : ∃ piece pieces, split sep s = piece :: pieces.
Proof.
  destruct s as [|c s]; simpl; [by eauto|].
  destruct (c =? sep); [by eauto|]. destruct (split sep s); by eauto.
Qed.

Lemma join_split sep s : join [sep] (split sep s) = s.
Proof.
  induction s as [|c s IH]; [done|]. simpl split.
  destruct (split_nonempty sep s) as (piece & pieces & Hs). rewrite Hs in *.
  destruct (c =? sep) eqn:Hc.
  - apply N.eqb_eq in Hc as ->. simpl. simpl in IH. by rewrite IH.
  - rewrite <- IH. by destruct pieces.
Qed.

(** The first piece of a split is what precedes the first separator, and
    the other pieces joined again are what follows it. *)
Lemma split_head s : hd [] (split COLON s) = beforeColon s.
Proof.
  unfold beforeColon. induction s as [|c s IH]; [done|]. simpl.
  destruct (c =? COLON); [done|]. simpl. rewrite <- IH.
  by destruct (split_nonempty COLON s) as (? & ? & ->).
Qed.

Lemma split_tail s : join (js ":") (tl (split COLON s)) = afterColon s.
Proof.
  unfold afterColon. induction s as [|c s IH]; [done|]. simpl split.
  simpl dropWhile. destruct (c =? COLON); simpl negb; cbv iota.
  - simpl tl. apply (join_split COLON).
  - rewrite <- IH. by destruct (split_nonempty COLON s) as (? & ? & ->).
Qed.

Lemma removeQuotes_noQuote s : noQuote (removeQuotes s).
Proof.
  unfold noQuote, removeQuotes. apply Forall_forall.
  by intros c [? _]%list_elem_of_filter.
Qed.

Lemma removeQuotes_id s : noQuote s → removeQuotes s = s.
Proof.
  unfold noQuote, removeQuotes. induction 1 as [|c s Hc _ IH]; [done|].
  rewrite filter_cons_True by done. by rewrite IH.
Qed.

Lemma removeQuotes_app s t :
  removeQuotes (s ++ t) = removeQuotes s ++ removeQuotes t.
Proof. apply filter_app. Qed.

Lemma removeQuotes_quote q s :
  isQuote q = true → removeQuotes (q :: s) = removeQuotes s.
Proof. intros Hq. unfold removeQuotes. rewrite filter_cons_False; [done|]. by rewrite Hq. Qed.


Lemma Forall_dropWhile {A} (P : A → Prop) p l :
  Forall P l → Forall P (dropWhile p l).
Proof.
  induction 1 as [|x l Hx Hl IH]; simpl; [done|].
  destruct (p x); [done|]. by constructor.
Qed.

Lemma Forall_takeWhile {A} (P : A → Prop) p l :
  Forall P l → Forall P (takeWhile p l).
Proof.
  induction 1 as [|x l Hx Hl IH]; simpl; [done|].
  destruct (p x); by constructor.
Qed.

Lemma Forall_trim (P : N → Prop) s : Forall P s → Forall P (trim s).
Proof.
  intros Hs. unfold trim.
  by apply Forall_reverse, Forall_dropWhile, Forall_reverse, Forall_dropWhile.
Qed.

(** ** The tokeniser never runs out of iterations *)

Lemma length_dropWhile {A} (p : A → bool) l :
  (length (dropWhile p l) ≤ length l)%nat.
Proof. induction l as [|x l IH]; simpl; [lia|]. destruct (p x); simpl; lia. Qed.

Lemma takeWhile_dropWhile {A} (p : A → bool) l :
  takeWhile p l ++ dropWhile p l = l.
Proof. induction l as [|x l IH]; simpl; [done|]. destruct (p x); simpl; congruence. Qed.

Lemma bareRun_consumes s m rest :
  bareRun s = Some (m, rest) → m ≠ [] ∧ (length rest < length s)%nat.
Proof.
  unfold bareRun. set (p := λ c : N, negb (isWhiteSpace c || isQuote c)).
  pose proof (takeWhile_dropWhile p s) as Happ.
  destruct (takeWhile p s) as [|a run]; [done|].
  intros [= <- <-]. split; [done|].
  rewrite <- Happ at 2. rewrite length_app. simpl. lia.
Qed.

Lemma quotedSpan_consumes q s m rest :
  quotedSpan q s = Some (m, rest) → m ≠ [] ∧ (length rest < length s)%nat.
Proof.
  destruct s as [|c s']; simpl; [done|].
  destruct (c =? q); [|done].
  pose proof (length_dropWhile (λ d, negb (d =? q)) s') as Hlen.
  destruct (dropWhile _ s') as [|d rest0]; [done|].
  intros [= <- <-]. split; [done|]. simpl in *. lia.
Qed.

Lemma alternative_consumes s m rest :
  alternative s = Some (m, rest) → m ≠ [] ∧ (length rest < length s)%nat.
Proof.
  unfold alternative.
  destruct (bareRun s) as [[m1 r1]|] eqn:H1.
  { intros [= -> ->]. by eapply bareRun_consumes. }
  destruct (quotedSpan DQUOTE s) as [[m2 r2]|] eqn:H2.
  { intros [= -> ->]. by eapply quotedSpan_consumes. }
  apply quotedSpan_consumes.
Qed.

Lemma iterations_enough n k s :
  (length s ≤ n)%nat → (length s ≤ k)%nat → iterations n s = iterations k s.
Proof.
  revert k s. induction n as [|n IH]; intros k s Hn Hk.
  - destruct s; [|simpl in Hn; lia]. by destruct k.
  - destruct k as [|k].
    + destruct s; [|simpl in Hk; lia]. done.
    + simpl. destruct (alternative s) as [[m rest]|] eqn:Halt; [|done].
      apply alternative_consumes in Halt as [_ Hlt].
      rewrite (IH k rest); [done|lia|lia].
Qed.

Lemma iterations_rest n s m rest :
  iterations n s = (m, rest) →
  (length rest ≤ length s)%nat ∧ (m ≠ [] → (length rest < length s)%nat).
Proof.
  revert s m rest. induction n as [|n IH]; intros s m rest; simpl.
  - intros [= <- <-]. split; [lia|done].
  - destruct (alternative s) as [[m1 r1]|] eqn:Halt.
    + apply alternative_consumes in Halt as [_ Hlt].
      destruct (iterations n r1) as [ms r2] eqn:Hit.
      apply IH in Hit as [Hle _]. intros [= <- <-]. split; lia.
    + intros [= <- <-]. split; [lia|done].
Qed.

Lemma matchAt_consumes s m rest :
  matchAt s = Some (m, rest) → (length rest < length s)%nat.
Proof.
  unfold matchAt. destruct (iterations (length s) s) as [m1 r1] eqn:Hit.
  apply iterations_rest in Hit as [_ Hlt].
  destruct m1 as [|c m1]; [done|]. intros [= <- <-]. by apply Hlt.
Qed.

(** Any number of rounds from [length s] on gives the same tokens. *)
Lemma scan_enough n k s :
  (length s ≤ n)%nat → (length s ≤ k)%nat → scan n s = scan k s.
Proof.
  revert k s. induction n as [|n IH]; intros k s Hn Hk.
  - destruct s; [|simpl in Hn; lia]. by destruct k.
  - destruct k as [|k].
    + destruct s; [|simpl in Hk; lia]. done.
    + destruct s as [|c s']; [done|]. simpl scan.
      destruct (matchAt (c :: s')) as [[m rest]|] eqn:Hm.
      * apply matchAt_consumes in Hm. f_equal. apply IH; simpl in *; lia.
      * apply IH; simpl in *; lia.
Qed.

(** ** The loop of the parser *)

Lemma pair_ind {A} (P : list A → Prop) :
  P [] → (∀ x, P [x]) → (∀ x y l, P l → P (y :: l) → P (x :: y :: l)) →
  ∀ l, P l.
Proof.
  intros Hnil Hone Hstep l.
  enough (P l ∧ ∀ x, P (x :: l)) by tauto.
  induction l as [|y l [IH1 IH2]]; split; auto.
Qed.

Lemma headerFlag_inv part :
  isHeaderFlag part = true → part = js "-H" ∨ part = js "--header".
Proof.
  unfold isHeaderFlag. rewrite orb_true_iff, !bool_decide_eq_true. tauto.
Qed.

Lemma requestFlag_inv part :
  isRequestFlag part = true → part = js "-X" ∨ part = js "--request".
Proof.
  unfold isRequestFlag. rewrite orb_true_iff, !bool_decide_eq_true. tauto.
Qed.

Lemma dataFlag_inv part :
  isDataFlag part = true →
  part = js "-d" ∨ part = js "--data" ∨ part = js "--data-raw".
Proof.
  unfold isDataFlag. rewrite !orb_true_iff, !bool_decide_eq_true. tauto.
Qed.

Lemma headerFlag_class part :
  isHeaderFlag part = true → isFlag part = true.
Proof. by intros [-> | ->]%headerFlag_inv. Qed.

Lemma requestFlag_class part :
  isRequestFlag part = true → isFlag part = true ∧ isHeaderFlag part = false.
Proof. by intros [-> | ->]%requestFlag_inv. Qed.

Lemma dataFlag_class part :
  isDataFlag part = true →
  isFlag part = true ∧ isHeaderFlag part = false ∧ isRequestFlag part = false.
Proof. by intros [-> | [-> | ->]]%dataFlag_inv. Qed.

Lemma parseCurlCommand_eq lo up cmd :
  parseCurlCommand lo up cmd =
  match parseParts lo up (tokens cmd) with
  | Return r => Return r
  | Throw message => Throw (js "Error parsing curl command: " ++ message)
  end.
Proof. done. Qed.

Section ParserFacts.

Variable toLowerCase toUpperCase : list N → list N.

Local Abbreviation forParts := (forParts toUpperCase).
Local Abbreviation parseParts := (parseParts toLowerCase toUpperCase).
Local Abbreviation parseCurlCommand := (parseCurlCommand toLowerCase toUpperCase).

(** One turn of the loop, case by case. *)
Lemma forParts_bare r part rest :
  isFlag part = false →
  forParts r (part :: rest) = forParts (setUrl r (removeQuotes part)) rest.
Proof. unfold isFlag. simpl. by intros ->. Qed.

Lemma forParts_header r part next rest :
  isHeaderFlag part = true →
  forParts r (part :: next :: rest) =
  forParts (setHeader r (trim (hd [] (split COLON (removeQuotes next))))
              (trim (join (js ":") (tl (split COLON (removeQuotes next))))))
    rest.
Proof.
  intros H. pose proof (headerFlag_class _ H) as Hf. unfold isFlag in Hf.
  cbn [forParts]. by rewrite Hf, H.
Qed.

Lemma forParts_request r part next rest :
  isRequestFlag part = true →
  forParts r (part :: next :: rest) =
  forParts (setMethod r (toUpperCase next)) rest.
Proof.
  intros H. destruct (requestFlag_class _ H) as [Hf Hh]. unfold isFlag in Hf.
  cbn [forParts]. by rewrite Hf, Hh, H.
Qed.

Lemma forParts_data r part next rest :
  isDataFlag part = true →
  forParts r (part :: next :: rest) =
  forParts (let r1 := setData r (removeQuotes next) in
            if bool_decide (method r1 = js "GET")
            then setMethod r1 (js "POST") else r1) rest.
Proof.
  intros H. destruct (dataFlag_class _ H) as (Hf & Hh & Hx). unfold isFlag in Hf.
  cbn [forParts]. by rewrite Hf, Hh, Hx, H.
Qed.

Lemma forParts_missing r part :
  isFlag part = true → takesValue part = true →
  forParts r [part] = Throw (js "Missing value for " ++ part).
Proof.
  unfold isFlag, takesValue. intros Hf Ht. cbn [forParts]. rewrite Hf.
  destruct (isHeaderFlag part); [done|].
  destruct (isRequestFlag part); [done|].
  simpl in Ht. by rewrite Ht.
Qed.

Lemma forParts_unknown r part rest :
  isFlag part = true → takesValue part = false →
  forParts r (part :: rest) = forParts r rest.
Proof.
  unfold isFlag, takesValue. intros Hf Ht. cbn [forParts]. rewrite Hf.
  apply orb_false_iff in Ht as [[Hh Hx]%orb_false_iff Hd].
  by rewrite Hh, Hx, Hd.
Qed.

(** Reading [pre ++ post] is reading [pre], then [post] from the state
    that [pre] leaves. *)
Lemma forParts_app pre : ∀ r st post,
  forParts r pre = Return st → forParts r (pre ++ post) = forParts st post.
Proof.
  induction pre as [|x|x y l IHl IHyl] using pair_ind; intros r st post.
  - by intros [= ->].
  - destruct (isFlag x) eqn:Hf.
    + destruct (takesValue x) eqn:Ht.
      * by rewrite forParts_missing.
      * rewrite forParts_unknown by done. intros [= ->]. simpl app.
        by rewrite forParts_unknown.
    + rewrite forParts_bare by done. intros [= <-]. simpl app.
      by rewrite forParts_bare.
  - change ((x :: y :: l) ++ post) with (x :: y :: (l ++ post)).
    destruct (isFlag x) eqn:Hf.
    + destruct (isHeaderFlag x) eqn:Hh.
      { rewrite !forParts_header by done. apply IHl. }
      destruct (isRequestFlag x) eqn:Hx.
      { rewrite !forParts_request by done. apply IHl. }
      destruct (isDataFlag x) eqn:Hd.
      { rewrite !forParts_data by done. apply IHl. }
      assert (Ht : takesValue x = false) by (unfold takesValue; by rewrite Hh, Hx, Hd).
      rewrite !(forParts_unknown _ x) by done. apply (IHyl r st post).
    + rewrite !(forParts_bare _ x) by done. apply (IHyl _ st post).
Qed.

Lemma bareTokens_bare part rest :
  isFlag part = false → bareTokens (part :: rest) = part :: bareTokens rest.
Proof. simpl. by intros ->. Qed.

Lemma bareTokens_value part next rest :
  isFlag part = true → takesValue part = true →
  bareTokens (part :: next :: rest) = bareTokens rest.
Proof. simpl. by intros -> ->. Qed.

Lemma bareTokens_unknown part rest :
  isFlag part = true → takesValue part = false →
  bareTokens (part :: rest) = bareTokens rest.
Proof. simpl. by intros -> ->. Qed.

(** The flags with a value leave the URL alone. *)
Lemma forParts_value_url r part next rest :
  isFlag part = true → takesValue part = true →
  ∃ r1, forParts r (part :: next :: rest) = forParts r1 rest ∧ url r1 = url r.
Proof.
  intros Hf Ht. destruct (isHeaderFlag part) eqn:Hh.
  { eexists. by rewrite forParts_header. }
  destruct (isRequestFlag part) eqn:Hx.
  { eexists. by rewrite forParts_request. }
  assert (Hd : isDataFlag part = true).
  { unfold takesValue in Ht. by rewrite Hh, Hx in Ht. }
  eexists. rewrite forParts_data by done. split; [done|].
  simpl. by case_bool_decide.
Qed.

(** The URL that the loop leaves is the last token read in URL position. *)
Lemma forParts_url parts : ∀ r r',
  forParts r parts = Return r' →
  url r' = from_option removeQuotes (url r) (last (bareTokens parts)).
Proof.
  induction parts as [|x|x y l IHl IHyl] using pair_ind; intros r r'.
  - by intros [= ->].
  - destruct (isFlag x) eqn:Hf.
    + destruct (takesValue x) eqn:Ht.
      * by rewrite forParts_missing.
      * rewrite forParts_unknown, bareTokens_unknown by done. by intros [= ->].
    + rewrite forParts_bare, bareTokens_bare by done. by intros [= <-].
  - destruct (isFlag x) eqn:Hf.
    + destruct (takesValue x) eqn:Ht.
      * destruct (forParts_value_url r x y l Hf Ht) as (r1 & -> & <-).
        rewrite bareTokens_value by done. apply IHl.
      * rewrite (forParts_unknown _ x), (bareTokens_unknown x) by done.
        apply IHyl.
    + rewrite (forParts_bare _ x), (bareTokens_bare x) by done.
      intros ->%IHyl. rewrite last_cons.
      by destruct (last (bareTokens (y :: l))).
Qed.

(** The guard on the first token compares a Boolean with a string. *)
Lemma keyword_guard_false (s keyword : jsstring) :
  StrictEquals (Not (Str s)) (Str keyword) = false.
Proof. done. Qed.

(** What [parseParts] does with a non-empty array of tokens. *)
Lemma parseParts_Some parts :
  parseParts (Some parts) =
  match forParts initialRequest (drop 1 parts) with
  | Throw m => Throw m
  | Return r =>
      if negb (ToBoolean (Str (url r))) then
        Throw (js "No URL specified in curl command")
      else if negb (URL_REGEX_test (url r)) then
        Throw (js "Invalid URL format")
      else Return r
  end.
Proof. done. Qed.

Lemma parseCurlCommand_Return cmd r :
  parseCurlCommand cmd = Return r →
  ∃ parts, tokens cmd = Some parts
    ∧ forParts initialRequest (drop 1 parts) = Return r
    ∧ url r ≠ [] ∧ URL_REGEX_test (url r) = true.
Proof.
  rewrite parseCurlCommand_eq.
  destruct (tokens cmd) as [parts|]; [|done].
  rewrite parseParts_Some.
  destruct (forParts _ _) as [r0|m] eqn:Hloop; [|done].
  destruct (ToBoolean (Str (url r0))) eqn:Hu; [|done].
  destruct (URL_REGEX_test (url r0)) eqn:Hre; [|done].
  simpl. intros [= ->]. exists parts. repeat split; try done.
  simpl in Hu. by apply bool_decide_eq_true in Hu.
Qed.

(** C1 (amended): when parsing succeeds, the URL of the descriptor is the
    LAST token read in URL position (a token that is not a flag and not the
    value of a flag), with its quote characters removed: each such token
    overwrites the URL captured before it. *)
Theorem C1_url_is_last_bare_token cmd r :
  parseCurlCommand cmd = Return r →
  ∃ parts t, tokens cmd = Some parts
    ∧ last (bareTokens (drop 1 parts)) = Some t
    ∧ url r = removeQuotes t.
Proof.
  intros (parts & Htok & Hloop & Hne & _)%parseCurlCommand_Return.
  apply forParts_url in Hloop.
  destruct (last (bareTokens (drop 1 parts))) as [t|] eqn:Hlast.
  - by exists parts, t.
  - simpl in Hloop. congruence.
Qed.

(** C3 (amended): a data flag promotes the method to POST exactly when the
    method reads GET at that moment, whether GET is the initial value or
    comes from an earlier request flag; any other method is kept, so a
    request flag whose upper-cased value is not GET is never overridden. *)
Theorem C3_promotion_on_current_GET r pre st d v post :
  forParts r pre = Return st → isDataFlag d = true →
  (∃ st', forParts r (pre ++ d :: v :: post) = forParts st' post
     ∧ data st' = Some (removeQuotes v)
     ∧ (method st = js "GET" → method st' = js "POST")
     ∧ (method st ≠ js "GET" → method st' = method st))
  ∧ (∀ x m, isRequestFlag x = true →
       ∃ st', forParts r (pre ++ x :: m :: d :: v :: post) = forParts st' post
         ∧ method st' = if bool_decide (toUpperCase m = js "GET")
                        then js "POST" else toUpperCase m).
Proof.
  intros Hpre Hd. split.
  - eexists. rewrite (forParts_app _ _ _ _ Hpre), forParts_data by done.
    split; [done|]. cbn zeta. case_bool_decide as Hm; simpl in *; by repeat split.
  - intros x m Hx. eexists.
    rewrite (forParts_app _ _ _ _ Hpre), forParts_request, forParts_data by done.
    split; [done|]. cbn zeta. simpl. by case_bool_decide.
Qed.

(** C4: a flag other than the header, request and data flags, read in flag
    position after the first token, is skipped: the command parses to the
    same completion, result or error, as the command without it. *)
Theorem C4_unknown_flag_ignored cmd cmd' p0 pre f post st :
  tokens cmd = Some (p0 :: pre ++ f :: post) →
  tokens cmd' = Some (p0 :: pre ++ post) →
  forParts initialRequest pre = Return st →
  isFlag f = true → takesValue f = false →
  parseCurlCommand cmd = parseCurlCommand cmd'.
Proof.
  intros Hcmd Hcmd' Hpre Hf Ht.
  rewrite !parseCurlCommand_eq, Hcmd, Hcmd', !parseParts_Some.
  change (drop 1 (p0 :: pre ++ f :: post)) with (pre ++ f :: post).
  change (drop 1 (p0 :: pre ++ post)) with (pre ++ post).
  by rewrite !(forParts_app _ _ _ _ Hpre), forParts_unknown.
Qed.


Lemma setHeader_quoteFree r key val :
  quoteFree r → noQuote key → noQuote val → quoteFree (setHeader r key val).
Proof.
  intros (Hu & Hd & Hh) Hk Hv. split; [done|]. split; [done|].
  intros k v. simpl. case_bool_decide; [apply Hh|].
  destruct (decide (k = key)) as [->|Hne].
  - rewrite lookup_insert_eq. by intros [= <-].
  - rewrite lookup_insert_ne by done. apply Hh.
Qed.

Lemma forParts_quoteFree parts : ∀ r r',
  forParts r parts = Return r' → quoteFree r → quoteFree r'.
Proof.
  assert (Hurl : ∀ r t, quoteFree r → quoteFree (setUrl r (removeQuotes t))).
  { intros r t (_ & Hd & Hh). split; [apply removeQuotes_noQuote|done]. }
  induction parts as [|x|x y l IHl IHyl] using pair_ind; intros r r'.
  - by intros [= ->].
  - destruct (isFlag x) eqn:Hf.
    + destruct (takesValue x) eqn:Ht.
      * by rewrite forParts_missing.
      * rewrite forParts_unknown by done. by intros [= ->].
    + rewrite forParts_bare by done. intros [= <-]. apply Hurl.
  - destruct (isFlag x) eqn:Hf; [|rewrite (forParts_bare _ x) by done; eauto].
    destruct (isHeaderFlag x) eqn:Hh.
    { rewrite forParts_header, split_head, split_tail by done.
      intros Hl Hr. apply (IHl _ _ Hl), setHeader_quoteFree; [done|..].
      - apply Forall_trim, Forall_takeWhile, removeQuotes_noQuote.
      - apply Forall_trim, Forall_drop, Forall_dropWhile, removeQuotes_noQuote. }
    destruct (isRequestFlag x) eqn:Hx.
    { rewrite forParts_request by done. intros Hl Hr. by apply (IHl _ _ Hl). }
    destruct (isDataFlag x) eqn:Hd.
    { rewrite forParts_data by done. intros Hl (Hu & _ & Hhs).
      apply (IHl _ _ Hl). cbn zeta.
      case_bool_decide; (split; [done|split; [|done]]).
      all: simpl; intros d [= <-]; apply removeQuotes_noQuote. }
    assert (Ht : takesValue x = false) by (unfold takesValue; by rewrite Hh, Hx, Hd).
    rewrite (forParts_unknown _ x) by done. apply IHyl.
Qed.

(** C10: the URL, every header line and every body value are stored with
    all their quote characters deleted, wherever in the token they stand:
    deleting is the identity on a string without quotes and skips every
    quote of any other.  After a token read as URL, header or body the
    descriptor is given field by field.  The body token made of a
    single-quoted JSON text with double quotes inside is stored as [{a:1}],
    and the loop keeps the URL, the body and the headers free of quotes. *)
Theorem C10_all_quotes_removed r pre st :
  forParts r pre = Return st →
  (∀ s, noQuote (removeQuotes s)
        ∧ (noQuote s → removeQuotes s = s)
        ∧ (∀ q t, isQuote q = true →
             removeQuotes (s ++ q :: t) = removeQuotes s ++ removeQuotes t))
  ∧ (∀ t post, isFlag t = false →
       forParts r (pre ++ t :: post)
       = forParts (RequestData (method st) (removeQuotes t) (headers st)
                     (data st) (params st)) post
       ∧ forParts r (pre ++ [t])
         = Return (RequestData (method st) (removeQuotes t) (headers st)
                     (data st) (params st)))
  ∧ (∀ h v, isHeaderFlag h = true →
       forParts r (pre ++ [h; v])
       = Return (RequestData (method st) (url st)
                   (if bool_decide (trim (beforeColon (removeQuotes v)) = js "__proto__")
                    then headers st
                    else <[trim (beforeColon (removeQuotes v)) :=
                            trim (afterColon (removeQuotes v))]> (headers st))
                   (data st) (params st)))
  ∧ (∀ d v, isDataFlag d = true →
       forParts r (pre ++ [d; v])
       = Return (RequestData
                   (if bool_decide (method st = js "GET") then js "POST"
                    else method st)
                   (url st) (headers st) (Some (removeQuotes v)) (params st)))
  ∧ (∀ d, isDataFlag d = true →
       forParts r (pre ++ [d; js "'{" ++ [34] ++ js "a" ++ [34] ++ js ":1}'"])
       = Return (RequestData
                   (if bool_decide (method st = js "GET") then js "POST"
                    else method st)
                   (url st) (headers st) (Some (js "{a:1}")) (params st)))
  ∧ (quoteFree r → quoteFree st).
Proof.
  intros Hpre.
  assert (Hdata : ∀ d v, isDataFlag d = true →
    forParts r (pre ++ [d; v])
    = Return (RequestData
                (if bool_decide (method st = js "GET") then js "POST"
                 else method st)
                (url st) (headers st) (Some (removeQuotes v)) (params st))).
  { intros d v Hd. rewrite (forParts_app _ _ _ _ Hpre), forParts_data by done.
    cbn zeta. simpl. by case_bool_decide. }
  split_and!.
  - intros s. split_and!; [apply removeQuotes_noQuote|apply removeQuotes_id|].
    intros q t Hq. by rewrite removeQuotes_app, removeQuotes_quote.
  - intros t post Ht.
    by rewrite !(forParts_app _ _ _ _ Hpre), !forParts_bare.
  - intros h v Hh.
    rewrite (forParts_app _ _ _ _ Hpre), forParts_header by done.
    by rewrite split_head, split_tail.
  - exact Hdata.
  - intros d Hd. by rewrite Hdata.
  - apply (forParts_quoteFree _ _ _ Hpre).
Qed.

End ParserFacts.

(** ** The request analyser *)

Lemma auth_fold (hs : gmap (list N) (list N)) :
  foldl (authStep hs) (Authentication false None) authHeaders =
  Authentication
    (bool_decide (js "Authorization" ∈ dom hs ∨ js "X-API-Key" ∈ dom hs))
    (lastMatching hs).
Proof.
  unfold lastMatching, authHeaders, ruleMatches.
  cbn [foldl List.filter authStep fst snd prefixSet default].
  change (ToBoolean (Str (js "Bearer"))) with true.
  change (ToBoolean (Str (js "Basic"))) with true.
  cbn [negb andb id from_option].
  assert (Hdom : ∀ k, bool_decide (k ∈ dom hs) = bool_decide (is_Some (hs !! k))).
  { intros k. apply bool_decide_ext, elem_of_dom. }
  rewrite bool_decide_or, !Hdom.
  destruct (hs !! js "Authorization") as [v|]; destruct (hs !! js "X-API-Key") as [k|].
  all: try destruct (startsWith v (js "Bearer")); try destruct (startsWith v (js "Basic")).
  all: done.
Qed.

Lemma utf8_length cp :
  (1 ≤ length (utf8 cp))%nat ∧ (128 ≤ cp → (2 ≤ length (utf8 cp))%nat).
Proof.
  unfold utf8. destruct (cp <? 128) eqn:H1.
  - apply N.ltb_lt in H1. simpl. split; [lia|]. intros; lia.
  - destruct (cp <? 2048); [|destruct (cp <? 65536)]; simpl; split; (lia || intros; lia).
Qed.

Lemma utf8Encode_cons_plain c s :
  isHighSurrogate c = false → isLowSurrogate c = false →
  utf8Encode (c :: s) = utf8 c ++ utf8Encode s.
Proof. unfold utf8Encode. simpl. by intros -> ->. Qed.

Lemma utf8Encode_ascii s : Forall (λ c, c < 128) s → utf8Encode s = s.
Proof.
  induction 1 as [|c s Hc _ IH]; [done|].
  rewrite utf8Encode_cons_plain, IH.
  - unfold utf8. apply N.ltb_lt in Hc. by rewrite Hc.
  - unfold isHighSurrogate. apply andb_false_iff. left. apply N.leb_gt. lia.
  - unfold isLowSurrogate. apply andb_false_iff. left. apply N.leb_gt. lia.
Qed.

Lemma utf8Encode_pair x y s :
  isHighSurrogate x = true → isLowSurrogate y = true →
  utf8Encode (x :: y :: s) =
  utf8 (65536 + (x - 55296) * 1024 + (y - 56320)) ++ utf8Encode s.
Proof. unfold utf8Encode. simpl scalarValues. by intros -> ->. Qed.

Lemma utf8Encode_lone_high x y s :
  isHighSurrogate x = true → isLowSurrogate y = false →
  utf8Encode (x :: y :: s) = utf8 65533 ++ utf8Encode (y :: s).
Proof.
  unfold utf8Encode. intros Hx Hy.
  change (scalarValues (x :: y :: s)) with
    (if isHighSurrogate x then
       if isLowSurrogate y
       then (65536 + (x - 55296) * 1024 + (y - 56320)) :: scalarValues s
       else 65533 :: scalarValues (y :: s)
     else if isLowSurrogate x then 65533 :: scalarValues (y :: s)
     else x :: scalarValues (y :: s)).
  by rewrite Hx, Hy.
Qed.

Lemma utf8Encode_lone_low x s :
  isHighSurrogate x = false → isLowSurrogate x = true →
  utf8Encode (x :: s) = utf8 65533 ++ utf8Encode s.
Proof. unfold utf8Encode. simpl scalarValues. by intros -> ->. Qed.

(** Every code unit costs at least one byte, and a code unit above the
    ASCII range costs more than one. *)
Lemma utf8Encode_length s :
  (length s ≤ length (utf8Encode s))%nat
  ∧ (Exists (λ c, 128 ≤ c) s → (length s < length (utf8Encode s))%nat).
Proof.
  induction s as [|x|x y l IHl IHyl] using pair_ind.
  - split; [done|]. by intros ?%Exists_nil.
  - unfold utf8Encode. simpl.
    destruct (isHighSurrogate x); [simpl; split; intros; lia|].
    destruct (isLowSurrogate x); [simpl; split; intros; lia|].
    simpl. rewrite app_nil_r. destruct (utf8_length x) as [H1 H2]. split; [done|].
    intros [Hx|[]%Exists_nil]%Exists_cons. apply H2 in Hx. lia.
  - destruct IHl as [IHl _]. destruct IHyl as [IHyl1 IHyl2].
    destruct (isHighSurrogate x) eqn:Hhi.
    { destruct (isLowSurrogate y) eqn:Hy.
      - rewrite utf8Encode_pair, length_app by done.
        assert (length (utf8 (65536 + (x - 55296) * 1024 + (y - 56320))) = 4%nat) as ->.
        { unfold utf8.
          replace (_ <? 128) with false by (symmetry; apply N.ltb_ge; lia).
          replace (_ <? 2048) with false by (symmetry; apply N.ltb_ge; lia).
          by replace (_ <? 65536) with false by (symmetry; apply N.ltb_ge; lia). }
        cbn [length] in *. split; intros; lia.
      - rewrite utf8Encode_lone_high, length_app by done.
        cbn [length] in *. change (length (utf8 65533)) with 3%nat.
        split; intros; lia. }
    destruct (isLowSurrogate x) eqn:Hlo.
    { rewrite utf8Encode_lone_low, length_app by done.
      cbn [length] in *. change (length (utf8 65533)) with 3%nat.
      split; intros; lia. }
    rewrite utf8Encode_cons_plain, length_app by done.
    destruct (utf8_length x) as [H1 H2].
    cbn [length] in *. split; [lia|].
    intros [Hx|Hyl]%Exists_cons; [apply H2 in Hx; lia|]. apply IHyl2 in Hyl. lia.
Qed.

Lemma startsWith_app s p : startsWith s p = true → s = p ++ drop (length p) s.
Proof.
  revert s. induction p as [|d p IH]; intros s; [done|].
  destruct s as [|c s]; simpl; [done|].
  intros [->%N.eqb_eq Hs]%andb_true_iff. f_equal. by apply IH.
Qed.

Lemma bearer_not_basic v :
  startsWith v (js "Bearer") = true → startsWith v (js "Basic") = false.
Proof.
  intros H%startsWith_app. by rewrite H.
Qed.

Section RequestAnalyzerFacts.

Variable URL : list N → option URLObject.

Lemma analyzeRequest_Some r u :
  URL (url r) = Some u →
  ∃ a, analyzeRequest URL r = Some a
    ∧ a_authentication a =
        Authentication
          (bool_decide (js "Authorization" ∈ dom (headers r)
                        ∨ js "X-API-Key" ∈ dom (headers r)))
          (lastMatching (headers r))
    ∧ a_body a =
        match data r with
        | Some d =>
            if ToBoolean (Str d) then
              BodyPresent (BlobSize [d])
                (if (200 <? length d)%nat then take 200 d ++ js "..." else d)
            else BodyAbsent
        | None => BodyAbsent
        end.
Proof.
  intros Hu. eexists. split.
  { unfold analyzeRequest. rewrite Hu. reflexivity. }
  split; [apply auth_fold|reflexivity].
Qed.

(** C5: the rules are tried in the order of the table, [Authorization]
    with the prefix [Bearer] giving [Bearer Token], [Authorization] with the
    prefix [Basic] giving [Basic Auth], [X-API-Key] giving [API Key], and
    the type of the finding is the type of the last rule that matches:
    [API Key] whenever [X-API-Key] is there, also beside a Bearer
    [Authorization]; otherwise [Bearer Token] or [Basic Auth] by the prefix
    of [Authorization]; null when no rule matches. *)
Theorem C5_last_matching_rule_wins r u :
  URL (url r) = Some u →
  ∃ a, analyzeRequest URL r = Some a
    ∧ type (a_authentication a)
      = snd <$> last (List.filter (ruleMatches (headers r))
                        [ (js "Authorization", Some (js "Bearer"), js "Bearer Token");
                          (js "Authorization", Some (js "Basic"), js "Basic Auth");
                          (js "X-API-Key", None, js "API Key") ])
    ∧ (∀ v, headers r !! js "Authorization" = Some v →
         startsWith v (js "Bearer") = true →
         headers r !! js "X-API-Key" = None →
         type (a_authentication a) = Some (js "Bearer Token"))
    ∧ (∀ v, headers r !! js "Authorization" = Some v →
         startsWith v (js "Basic") = true →
         headers r !! js "X-API-Key" = None →
         type (a_authentication a) = Some (js "Basic Auth"))
    ∧ (∀ k, headers r !! js "X-API-Key" = Some k →
         type (a_authentication a) = Some (js "API Key"))
    ∧ (∀ v k, headers r !! js "Authorization" = Some v →
         startsWith v (js "Bearer") = true →
         headers r !! js "X-API-Key" = Some k →
         type (a_authentication a) = Some (js "API Key"))
    ∧ (headers r !! js "X-API-Key" = None →
       (∀ v, headers r !! js "Authorization" = Some v →
          startsWith v (js "Bearer") = false ∧ startsWith v (js "Basic") = false) →
       type (a_authentication a) = None).
Proof.
  intros (a & Ha & Hauth & _)%analyzeRequest_Some.
  exists a. rewrite Hauth. split; [done|]. cbn [type].
  unfold lastMatching, authHeaders, ruleMatches. cbn [List.filter fst snd].
  split_and!.
  - done.
  - intros v Hv Hb Hk. rewrite Hv, Hk, Hb.
    by rewrite (bearer_not_basic v Hb).
  - intros v Hv Hb Hk. rewrite Hv, Hk, Hb.
    by destruct (startsWith v (js "Bearer")).
  - intros k Hk. rewrite Hk.
    destruct (headers r !! js "Authorization") as [v|]; [|done].
    by destruct (startsWith v (js "Bearer")), (startsWith v (js "Basic")).
  - intros v k Hv Hb Hk. rewrite Hv, Hk, Hb.
    by destruct (startsWith v (js "Basic")).
  - intros Hk Hnone. rewrite Hk.
    destruct (headers r !! js "Authorization") as [v|]; [|done].
    by destruct (Hnone v eq_refl) as [-> ->].
Qed.

(** C6: [present] is true exactly when the headers have an [Authorization]
    or an [X-API-Key] entry, whatever its value; an [Authorization] value
    that starts with neither prefix, alone, gives present = true and
    type = null. *)
Theorem C6_present_whenever_header_exists r u :
  URL (url r) = Some u →
  ∃ a, analyzeRequest URL r = Some a
    ∧ (present (a_authentication a) = true ↔
         js "Authorization" ∈ dom (headers r) ∨ js "X-API-Key" ∈ dom (headers r))
    ∧ (∀ v, headers r !! js "Authorization" = Some v →
         startsWith v (js "Bearer") = false →
         startsWith v (js "Basic") = false →
         headers r !! js "X-API-Key" = None →
         a_authentication a = Authentication true None).
Proof.
  intros (a & Ha & Hauth & _)%analyzeRequest_Some.
  exists a. rewrite Hauth. split_and!; [done|apply bool_decide_eq_true|].
  intros v Hv Hb1 Hb2 Hk. f_equal.
  - apply bool_decide_eq_true. left. apply elem_of_dom. by rewrite Hv.
  - unfold lastMatching, authHeaders, ruleMatches. cbn [List.filter fst snd].
    by rewrite Hv, Hk, Hb1, Hb2.
Qed.

(** C8 (amended): the body summary is [{ present: false }] alone when the
    body is null or the empty string; for any other body it has
    present = true, the size the number of bytes of the UTF-8 encoding of
    the body (the length for ASCII text, more than the length as soon as a
    code unit is outside ASCII), and the preview the whole body when it has
    at most 200 code units and otherwise its first 200 followed by three
    dots. *)
Theorem C8_body_summary r u :
  URL (url r) = Some u →
  ∃ a, analyzeRequest URL r = Some a
    ∧ (data r = None ∨ data r = Some [] → a_body a = BodyAbsent)
    ∧ (∀ d, data r = Some d → d ≠ [] →
         a_body a =
           BodyPresent (length (utf8Encode d))
             (if bool_decide (length d ≤ 200)%nat then d
              else take 200 d ++ js "...")
         ∧ (Forall (λ c, c < 128) d → length (utf8Encode d) = length d)
         ∧ (Exists (λ c, 128 ≤ c) d → (length d < length (utf8Encode d))%nat)).
Proof.
  intros (a & Ha & _ & Hbody)%analyzeRequest_Some.
  exists a. rewrite Hbody. split_and!; [done|..].
  - by intros [-> | ->].
  - intros d -> Hd. split_and!.
    + destruct d as [|c d]; [done|]. cbn [ToBoolean]. rewrite bool_decide_true by done.
      f_equal.
      * unfold BlobSize. rewrite bind_cons. simpl. by rewrite app_nil_r.
      * case_bool_decide as Hlen.
        -- by apply Nat.ltb_ge in Hlen as ->.
        -- apply Nat.nle_gt, Nat.ltb_lt in Hlen. by rewrite Hlen.
    + by intros ->%utf8Encode_ascii.
    + apply utf8Encode_length.
Qed.

End RequestAnalyzerFacts.

(** ** The response analyser *)

Section ResponseAnalyzerFacts.

Variable axios : requestData → completion response.

(** C9: whatever the response (any status, any headers, none at all), the
    audit has exactly the four fixed names, in order, each with its fixed
    description and a Boolean [present] that tells whether the lower-case
    form of the name is among the response headers; on header names in
    lower case, as the HTTP client delivers them, that is a comparison of
    names up to case. *)
Theorem C9_audit_has_four_keys r resp :
  axios r = Return resp →
  ∃ a, analyzeResponse axios r = Return a
    ∧ (security_analysis a).*1 = auditedHeaders
    ∧ description <$> (security_analysis a).*2 =
        [ js "Enforces secure (HTTPS) connections to the server";
          js "Protects against clickjacking attacks";
          js "Prevents MIME type sniffing";
          js "Enables cross-site scripting filter in browsers" ]
    ∧ (∀ name sh, (name, sh) ∈ security_analysis a →
         (sh_present sh = true ↔ asciiLower name ∈ dom (response_headers resp)))
    ∧ ((∀ k, k ∈ dom (response_headers resp) → asciiLower k = k) →
       ∀ name sh, (name, sh) ∈ security_analysis a →
         (sh_present sh = true ↔
            ∃ k, k ∈ dom (response_headers resp) ∧ asciiLower k = asciiLower name)).
Proof.
  intros Hresp. unfold analyzeResponse. rewrite Hresp. eexists. split; [done|].
  cbn [security_analysis].
  assert (Hpresent : ∀ name sh,
            (name, sh) ∈ securityHeaders (response_headers resp) →
            (sh_present sh = true ↔ asciiLower name ∈ dom (response_headers resp))).
  { intros name sh Hin. unfold securityHeaders in Hin.
    rewrite !elem_of_cons, elem_of_nil in Hin.
    destruct Hin as [[= -> ->] | [[= -> ->] | [[= -> ->] | [[= -> ->] | []]]]];
      apply bool_decide_eq_true. }
  split_and!; [done|done|done|].
  intros Hlower name sh Hin. rewrite (Hpresent _ _ Hin). split.
  - intros Hdom. exists (asciiLower name). split; [done|]. by apply Hlower.
  - intros (k & Hk & Heq). rewrite <- Heq. by rewrite (Hlower k Hk).
Qed.

End ResponseAnalyzerFacts.

(** * The properties at concrete inputs *)

Local Abbreviation parse := (parseCurlCommand asciiLower asciiUpper).

(** ** The test cases of the specification *)

Example parse_plain :
  parse (js "curl https://example.com") = Return (plainGET (js "https://example.com")).
Proof. vm_compute. reflexivity. Qed.

Example parse_explicit_POST_with_body :
  parse (js "curl -X POST -d " ++ jsonToken ++ js " https://example.com")
  = Return (withBody (js "{a:1}")).
Proof. vm_compute. reflexivity. Qed.

Example parse_promoted_POST :
  parse (js "curl -d 'x' https://example.com") = Return (withBody (js "x")).
Proof. vm_compute. reflexivity. Qed.

Example parse_header_first_colon :
  parse (js "curl -H 'X-Custom: a:b' https://example.com")
  = Return (withHeaders {[ js "X-Custom" := js "a:b" ]}).
Proof. vm_compute. reflexivity. Qed.

Example parse_no_url :
  parse (js "curl -H 'X-Foo: bar'")
  = Throw (js "Error parsing curl command: No URL specified in curl command").
Proof. vm_compute. reflexivity. Qed.

Example parse_missing_value :
  parse (js "curl https://example.com -H")
  = Throw (js "Error parsing curl command: Missing value for -H").
Proof. vm_compute. reflexivity. Qed.

Example parse_ftp :
  parse (js "curl ftp://example.com")
  = Throw (js "Error parsing curl command: Invalid URL format").
Proof. vm_compute. reflexivity. Qed.

Example parse_empty :
  parse (js "   ")
  = Throw (js "Error parsing curl command: Command must start with 'curl'").
Proof. vm_compute. reflexivity. Qed.

Example analyze_bearer :
  a_authentication <$>
    analyzeRequest plainURL (withHeaders {[ js "Authorization" := js "Bearer xyz" ]})
  = Some (Authentication true (Some (js "Bearer Token"))).
Proof. vm_compute. reflexivity. Qed.

Example analyze_bearer_and_key :
  a_authentication <$>
    analyzeRequest plainURL
      (withHeaders {[ js "Authorization" := js "Bearer xyz"; js "X-API-Key" := js "k" ]})
  = Some (Authentication true (Some (js "API Key"))).
Proof. vm_compute. reflexivity. Qed.

Example analyze_digest :
  a_authentication <$>
    analyzeRequest plainURL (withHeaders {[ js "Authorization" := js "Digest x" ]})
  = Some (Authentication true None).
Proof. vm_compute. reflexivity. Qed.

Example analyze_body_250 :
  a_body <$> analyzeRequest plainURL (withBody (replicate 250 120))
  = Some (BodyPresent 250 (replicate 200 120 ++ js "...")).
Proof. vm_compute. reflexivity. Qed.

(** Ten times the two-byte character U+00E9. *)
Example analyze_body_two_byte :
  a_body <$> analyzeRequest plainURL (withBody (replicate 10 233))
  = Some (BodyPresent 20 (replicate 10 233)).
Proof. vm_compute. reflexivity. Qed.

Example analyze_url_parts :
  url_analysis <$>
    analyzeRequest plainURL (plainGET (js "https://example.com:8080/api?x=1#top"))
  = Some {| scheme := js "https"; ua_host := js "example.com:8080";
            path := js "/api"; query_params := js "?x=1"; fragment := js "#top" |}.
Proof. vm_compute. reflexivity. Qed.

(** ** C1 *)

(** C1 (as stated) fails: of two tokens in URL position the descriptor keeps
    the second, not the first; and a later token that is no URL makes a
    command fail that parses without it. *)
Lemma C1_first_url_is_overwritten :
  tokens (js "curl https://a.example https://b.example")
    = Some [js "curl"; js "https://a.example"; js "https://b.example"]
  ∧ head (bareTokens [js "https://a.example"; js "https://b.example"])
    = Some (js "https://a.example")
  ∧ parse (js "curl https://a.example https://b.example")
    = Return (plainGET (js "https://b.example"))
  ∧ url (plainGET (js "https://b.example")) ≠ removeQuotes (js "https://a.example")
  ∧ parse (js "curl https://a.example") = Return (plainGET (js "https://a.example"))
  ∧ parse (js "curl https://a.example extra")
    = Throw (js "Error parsing curl command: Invalid URL format").
Proof. split_and!; by vm_compute. Qed.

Lemma C1_witness :
  parse (js "curl https://a.example https://b.example")
    = Return (plainGET (js "https://b.example"))
  ∧ ∃ parts t,
      tokens (js "curl https://a.example https://b.example") = Some parts
      ∧ last (bareTokens (drop 1 parts)) = Some t
      ∧ url (plainGET (js "https://b.example")) = removeQuotes t.
Proof.
  assert (H : parse (js "curl https://a.example https://b.example")
              = Return (plainGET (js "https://b.example")))
    by (vm_compute; reflexivity).
  exact (conj H (C1_url_is_last_bare_token asciiLower asciiUpper _ _ H)).
Defined.

(** ** C2 *)

(** C2 (code defect): the guard on the first token negates the lower-cased
    token before comparing it with the keyword, so it compares a Boolean
    with a string and never fires; the first token is not looked at, and a
    command that starts with another word parses. *)
Theorem C2_first_token_not_checked :
  (∀ lo up p0 rest,
     parseParts lo up (Some (p0 :: rest)) = parseParts lo up (Some (js "curl" :: rest)))
  ∧ asciiLower (js "wget") ≠ js "curl"
  ∧ parse (js "wget https://example.com")
    = Return (plainGET (js "https://example.com")).
Proof. split_and!; [done|by vm_compute..]. Qed.

(** ** C3 *)

(** C3 (as stated) fails: after an explicit request flag with the value
    GET, a data flag still promotes the method to POST. *)
Lemma C3_explicit_GET_is_promoted :
  parse (js "curl -X GET -d x https://example.com") = Return (withBody (js "x"))
  ∧ method (withBody (js "x")) = js "POST"
  ∧ method (withBody (js "x")) ≠ js "GET".
Proof. split_and!; by vm_compute. Qed.

Lemma C3_witness :
  forParts asciiUpper initialRequest [js "-X"; js "put"]
    = Return (RequestData (js "PUT") [] ∅ None ∅)
  ∧ isDataFlag (js "--data") = true
  ∧ (∃ st', forParts asciiUpper initialRequest
              ([js "-X"; js "put"] ++ js "--data" :: js "x" :: [js "https://example.com"])
            = forParts asciiUpper st' [js "https://example.com"]
       ∧ data st' = Some (removeQuotes (js "x"))
       ∧ (method (RequestData (js "PUT") [] ∅ None ∅) = js "GET" →
          method st' = js "POST")
       ∧ (method (RequestData (js "PUT") [] ∅ None ∅) ≠ js "GET" →
          method st' = method (RequestData (js "PUT") [] ∅ None ∅)))
  ∧ (∀ x m, isRequestFlag x = true →
       ∃ st', forParts asciiUpper initialRequest
                ([js "-X"; js "put"] ++ x :: m :: js "--data" :: js "x"
                   :: [js "https://example.com"])
              = forParts asciiUpper st' [js "https://example.com"]
         ∧ method st' = if bool_decide (asciiUpper m = js "GET")
                        then js "POST" else asciiUpper m).
Proof.
  assert (H1 : forParts asciiUpper initialRequest [js "-X"; js "put"]
               = Return (RequestData (js "PUT") [] ∅ None ∅))
    by (vm_compute; reflexivity).
  assert (H2 : isDataFlag (js "--data") = true) by (vm_compute; reflexivity).
  exact (conj H1 (conj H2
    (C3_promotion_on_current_GET asciiUpper _ _ _ _ (js "x")
       [js "https://example.com"] H1 H2))).
Defined.

(** ** C4 *)

Lemma C4_witness :
  tokens (js "curl -X PUT --verbose https://example.com")
    = Some (js "curl" :: [js "-X"; js "PUT"] ++ js "--verbose" :: [js "https://example.com"])
  ∧ tokens (js "curl -X PUT https://example.com")
    = Some (js "curl" :: [js "-X"; js "PUT"] ++ [js "https://example.com"])
  ∧ forParts asciiUpper initialRequest [js "-X"; js "PUT"]
    = Return (RequestData (js "PUT") [] ∅ None ∅)
  ∧ isFlag (js "--verbose") = true
  ∧ takesValue (js "--verbose") = false
  ∧ parse (js "curl -X PUT --verbose https://example.com")
    = parse (js "curl -X PUT https://example.com").
Proof.
  assert (H1 : tokens (js "curl -X PUT --verbose https://example.com")
    = Some (js "curl" :: [js "-X"; js "PUT"] ++ js "--verbose" :: [js "https://example.com"]))
    by (vm_compute; reflexivity).
  assert (H2 : tokens (js "curl -X PUT https://example.com")
    = Some (js "curl" :: [js "-X"; js "PUT"] ++ [js "https://example.com"]))
    by (vm_compute; reflexivity).
  assert (H3 : forParts asciiUpper initialRequest [js "-X"; js "PUT"]
    = Return (RequestData (js "PUT") [] ∅ None ∅)) by (vm_compute; reflexivity).
  assert (H4 : isFlag (js "--verbose") = true) by (vm_compute; reflexivity).
  assert (H5 : takesValue (js "--verbose") = false) by (vm_compute; reflexivity).
  exact (conj H1 (conj H2 (conj H3 (conj H4 (conj H5
    (C4_unknown_flag_ignored asciiLower asciiUpper _ _ _ _ _ _ _ H1 H2 H3 H4 H5)))))).
Defined.

(** ** C5 and C6 *)

Lemma C5_witness :
  plainURL (url (withHeaders {[ js "Authorization" := js "Bearer xyz";
                                js "X-API-Key" := js "k" ]})) = Some exampleCom
  ∧ ∃ a, analyzeRequest plainURL
           (withHeaders {[ js "Authorization" := js "Bearer xyz";
                           js "X-API-Key" := js "k" ]}) = Some a
      ∧ type (a_authentication a) = Some (js "API Key").
Proof.
  assert (H : plainURL (url (withHeaders {[ js "Authorization" := js "Bearer xyz";
                                            js "X-API-Key" := js "k" ]}))
              = Some exampleCom) by (vm_compute; reflexivity).
  destruct (C5_last_matching_rule_wins plainURL _ _ H)
    as (a & Ha & _ & _ & _ & _ & Hboth & _).
  split; [exact H|]. exists a. split; [exact Ha|].
  apply (Hboth (js "Bearer xyz") (js "k")); vm_compute; reflexivity.
Defined.

Lemma C6_witness :
  plainURL (url (withHeaders {[ js "Authorization" := js "Digest x" ]}))
    = Some exampleCom
  ∧ ∃ a, analyzeRequest plainURL
           (withHeaders {[ js "Authorization" := js "Digest x" ]}) = Some a
      ∧ (present (a_authentication a) = true ↔
           js "Authorization"
             ∈ dom (headers (withHeaders {[ js "Authorization" := js "Digest x" ]}))
           ∨ js "X-API-Key"
             ∈ dom (headers (withHeaders {[ js "Authorization" := js "Digest x" ]})))
      ∧ (∀ v, headers (withHeaders {[ js "Authorization" := js "Digest x" ]})
                !! js "Authorization" = Some v →
           startsWith v (js "Bearer") = false →
           startsWith v (js "Basic") = false →
           headers (withHeaders {[ js "Authorization" := js "Digest x" ]})
             !! js "X-API-Key" = None →
           a_authentication a = Authentication true None).
Proof.
  assert (H : plainURL (url (withHeaders {[ js "Authorization" := js "Digest x" ]}))
              = Some exampleCom) by (vm_compute; reflexivity).
  exact (conj H (C6_present_whenever_header_exists plainURL _ _ H)).
Defined.

(** ** C7 *)



(** ** C8 *)

(** C8 (as stated) fails: an empty body is not null, yet the summary says
    present = false.  The parser produces such a body from an empty pair of
    quotes after the data flag. *)
Lemma C8_empty_body_reported_absent :
  parse (js "curl -d '' https://example.com") = Return (withBody [])
  ∧ data (withBody []) ≠ None
  ∧ a_body <$> analyzeRequest plainURL (withBody []) = Some BodyAbsent
  ∧ body_present BodyAbsent = false.
Proof. split_and!; by vm_compute. Qed.

Lemma C8_witness :
  plainURL (url (withBody (replicate 10 233))) = Some exampleCom
  ∧ ∃ a, analyzeRequest plainURL (withBody (replicate 10 233)) = Some a
      ∧ (data (withBody (replicate 10 233)) = None
         ∨ data (withBody (replicate 10 233)) = Some [] → a_body a = BodyAbsent)
      ∧ (∀ d, data (withBody (replicate 10 233)) = Some d → d ≠ [] →
           a_body a =
             BodyPresent (length (utf8Encode d))
               (if bool_decide (length d ≤ 200)%nat then d
                else take 200 d ++ js "...")
           ∧ (Forall (λ c, c < 128) d → length (utf8Encode d) = length d)
           ∧ (Exists (λ c, 128 ≤ c) d → (length d < length (utf8Encode d))%nat)).
Proof.
  assert (H : plainURL (url (withBody (replicate 10 233))) = Some exampleCom)
    by (vm_compute; reflexivity).
  exact (conj H (C8_body_summary plainURL _ _ H)).
Defined.

(** ** C9 *)

Lemma C9_witness :
  (λ _ : requestData, Return serverError) (plainGET (js "https://example.com"))
    = Return serverError
  ∧ ∃ a, analyzeResponse (λ _, Return serverError) (plainGET (js "https://example.com"))
         = Return a
      ∧ (security_analysis a).*1 = auditedHeaders
      ∧ sh_present <$> (security_analysis a).*2 = [false; false; false; false].
Proof.
  assert (H : (λ _ : requestData, Return serverError)
                (plainGET (js "https://example.com")) = Return serverError)
    by reflexivity.
  destruct (C9_audit_has_four_keys (λ _, Return serverError) _ _ H)
    as (a & Ha & Hkeys & _).
  split; [exact H|]. exists a. split; [exact Ha|]. split; [exact Hkeys|].
  injection Ha as <-. reflexivity.
Defined.

(** ** C10 *)

Lemma C10_witness :
  forParts asciiUpper initialRequest [js "-X"; js "POST"]
    = Return (RequestData (js "POST") [] ∅ None ∅)
  ∧ isDataFlag (js "-d") = true
  ∧ forParts asciiUpper initialRequest
      ([js "-X"; js "POST"]
         ++ [js "-d"; js "'{" ++ [34] ++ js "a" ++ [34] ++ js ":1}'"])
    = Return (RequestData (js "POST") [] ∅ (Some (js "{a:1}")) ∅).
Proof.
  assert (H : forParts asciiUpper initialRequest [js "-X"; js "POST"]
              = Return (RequestData (js "POST") [] ∅ None ∅))
    by (vm_compute; reflexivity).
  assert (Hd : isDataFlag (js "-d") = true) by (vm_compute; reflexivity).
  split; [exact H|]. split; [exact Hd|].
  rewrite (proj1 (proj2 (proj2 (proj2 (proj2
    (C10_all_quotes_removed asciiUpper _ _ _ H))))) (js "-d") Hd).
  reflexivity.
Defined.

(** * Further properties of the code *)

(** ** The tokeniser *)

Lemma dropWhile_all {A} (p : A → bool) l :
  Forall (λ x, p x = true) l → dropWhile p l = [].
Proof. induction 1 as [|x l Hx _ IH]; simpl; [done|]. by rewrite Hx. Qed.

Lemma dropWhile_stop {A} (p : A → bool) x l :
  p x = false → dropWhile p (x :: l) = x :: l.
Proof. simpl. by intros ->. Qed.

Lemma takeWhile_app_stop {A} (p : A → bool) w s :
  Forall (λ x, p x = true) w → (∀ x s', s = x :: s' → p x = false) →
  takeWhile p (w ++ s) = w ∧ dropWhile p (w ++ s) = s.
Proof.
  intros Hw Hs. induction Hw as [|x w Hx _ IH]; simpl.
  - destruct s as [|y s']; [done|]. simpl. by rewrite (Hs y s').
  - rewrite Hx. destruct IH as [-> ->]. done.
Qed.

Lemma scan_tokens_nonempty n s : Forall (λ t, t ≠ []) (scan n s).
Proof.
  revert s. induction n as [|n IH]; intros s; simpl; [done|].
  destruct s as [|c s']; [done|].
  destruct (matchAt (c :: s')) as [[m rest]|] eqn:Hm; [|apply IH].
  constructor; [|apply IH].
  unfold matchAt in Hm. destruct (iterations _ _) as [[|d m'] r]; [done|].
  by injection Hm as <- _.
Qed.

(** X1: when the command has tokens at all, there is a first token and no
    token is empty; so reading [parts[0]] never fails. *)
Theorem tokens_first_and_nonempty cmd parts :
  tokens cmd = Some parts →
  ∃ p0 rest, parts = p0 :: rest ∧ p0 ≠ [] ∧ Forall (λ t, t ≠ []) rest.
Proof.
  unfold tokens, matchWords.
  pose proof (scan_tokens_nonempty
    (length (replaceSpaceRuns false (trim cmd)))
    (replaceSpaceRuns false (trim cmd))) as Hall.
  destruct (scan _ _) as [|p0 rest]; [done|].
  intros [= <-]. apply Forall_cons in Hall as [H0 Hrest]. by exists p0, rest.
Qed.

Lemma plain_not_space c : plainChar c → isWhiteSpace c || isQuote c = false.
Proof. by intros [-> ->]. Qed.

Lemma plainWord_head w :
  plainWord w → ∃ c w', w = c :: w' ∧ plainChar c.
Proof.
  intros [Hne Hall]. destruct w as [|c w']; [done|].
  apply Forall_cons in Hall as [Hc _]. by exists c, w'.
Qed.

Lemma join_words_head w ws :
  plainWord w → ∃ c s, join [SPACE] (w :: ws) = c :: s ∧ plainChar c.
Proof.
  intros (c & w' & -> & Hc)%plainWord_head.
  destruct ws; simpl; by eauto.
Qed.

Lemma join_words_last words :
  words ≠ [] → Forall plainWord words →
  ∃ s c, join [SPACE] words = s ++ [c] ∧ plainChar c.
Proof.
  intros Hne Hall. induction Hall as [|w ws Hw Hws IH]; [done|].
  destruct ws as [|w2 ws].
  - destruct Hw as [Hw Hall]. destruct w as [|c w _] using rev_ind; [done|].
    apply Forall_app in Hall as [_ [Hc _]%Forall_cons]. by exists w, c.
  - destruct IH as (s & c & Hs & Hc); [done|].
    exists (w ++ [SPACE] ++ s), c. split; [|done].
    change (join [SPACE] (w :: w2 :: ws))
      with (w ++ [SPACE] ++ join [SPACE] (w2 :: ws)).
    rewrite Hs. by rewrite <- !app_assoc.
Qed.

Lemma trim_join_words words :
  Forall plainWord words → trim (join [SPACE] words) = join [SPACE] words.
Proof.
  intros Hall. destruct words as [|w ws]; [done|].
  pose proof Hall as [Hw _]%Forall_cons.
  destruct (join_words_head w ws Hw) as (c & s & Hj & [Hc _]).
  destruct (join_words_last (w :: ws)) as (s' & c' & Hj' & [Hc' _]); [done..|].
  unfold trim. rewrite Hj at 1. rewrite dropWhile_stop by done.
  rewrite <- Hj, Hj' at 1. rewrite reverse_snoc, dropWhile_stop by done.
  by rewrite <- reverse_snoc, reverse_involutive.
Qed.

Lemma replaceSpaceRuns_plain b w s :
  plainWord w → replaceSpaceRuns b (w ++ s) = w ++ replaceSpaceRuns false s.
Proof.
  intros [Hne Hall]. revert b. induction Hall as [|c w [Hc _] Hw IH]; [done|].
  intros b. simpl. rewrite Hc. f_equal.
  destruct w as [|d w]; [done|]. by apply IH.
Qed.

Lemma replaceSpaceRuns_join_words b words :
  words ≠ [] → Forall plainWord words →
  replaceSpaceRuns b (join [SPACE] words) = join [SPACE] words.
Proof.
  intros Hne Hall. revert b. induction Hall as [|w ws Hw Hws IH]; [done|].
  intros b. destruct ws as [|w2 ws].
  - simpl join. rewrite <- (app_nil_r w) at 1.
    by rewrite replaceSpaceRuns_plain, app_nil_r.
  - change (join [SPACE] (w :: w2 :: ws))
      with (w ++ SPACE :: join [SPACE] (w2 :: ws)).
    rewrite replaceSpaceRuns_plain by done. f_equal.
    change (replaceSpaceRuns false (SPACE :: join [SPACE] (w2 :: ws)))
      with (SPACE :: replaceSpaceRuns true (join [SPACE] (w2 :: ws))).
    by rewrite IH.
Qed.

Lemma alternative_at_gap s :
  (∀ x s', s = x :: s' → x = SPACE) → alternative s = None.
Proof.
  intros Hs. destruct s as [|x s']; [done|].
  by rewrite (Hs x s' eq_refl).
Qed.

Lemma bareRun_word w s :
  plainWord w → (∀ x s', s = x :: s' → x = SPACE) →
  bareRun (w ++ s) = Some (w, s).
Proof.
  intros [Hne Hall] Hs. unfold bareRun.
  destruct (takeWhile_app_stop
    (λ c, negb (isWhiteSpace c || isQuote c)) w s) as [-> ->].
  - eapply Forall_impl; [exact Hall|]. intros c Hc. simpl.
    by rewrite plain_not_space.
  - by intros x s' ->%Hs.
  - by destruct w.
Qed.

Lemma matchAt_word w s :
  plainWord w → (∀ x s', s = x :: s' → x = SPACE) →
  matchAt (w ++ s) = Some (w, s).
Proof.
  intros Hw Hs. unfold matchAt.
  destruct (length (w ++ s)) as [|n] eqn:Hlen.
  { destruct Hw as [Hne _]. destruct w; [done|discriminate]. }
  simpl. unfold alternative at 1. rewrite bareRun_word by done.
  assert (iterations n s = ([], s)) as ->.
  { destruct n; simpl; [done|]. by rewrite alternative_at_gap. }
  rewrite app_nil_r. destruct Hw as [Hne _]. by destruct w.
Qed.

Lemma scan_match n s m rest :
  s ≠ [] → matchAt s = Some (m, rest) → scan (S n) s = m :: scan n rest.
Proof. intros Hs Hm. destruct s; [done|]. simpl. by rewrite Hm. Qed.

Lemma scan_skip n x s :
  matchAt (x :: s) = None → scan (S n) (x :: s) = scan n s.
Proof. intros Hm. simpl. by rewrite Hm. Qed.

Lemma scan_words words : ∀ n,
  Forall plainWord words → (length (join [SPACE] words) ≤ n)%nat →
  scan n (join [SPACE] words) = words.
Proof.
  induction words as [|w ws IH]; intros n Hall Hn.
  { by destruct n. }
  apply Forall_cons in Hall as [Hw Hws].
  assert (Hlen : (1 ≤ length w)%nat).
  { destruct Hw as [Hne _]. destruct w; [done|simpl; lia]. }
  destruct ws as [|w2 ws].
  - simpl join in *. destruct n as [|n]; [lia|].
    rewrite (scan_match n w w []).
    + destruct n; reflexivity.
    + intros ->. simpl in Hlen. lia.
    + rewrite <- (app_nil_r w) at 1. by apply matchAt_word.
  - change (join [SPACE] (w :: w2 :: ws))
      with (w ++ SPACE :: join [SPACE] (w2 :: ws)) in *.
    rewrite length_app in Hn. cbn [length] in Hn.
    destruct n as [|[|n]]; [lia..|].
    rewrite (scan_match _ _ w (SPACE :: join [SPACE] (w2 :: ws))).
    + f_equal. rewrite scan_skip.
      * apply IH; [done|lia].
      * unfold matchAt. cbn [length iterations].
        by rewrite alternative_at_gap by (by intros x s' [= <- _]).
    + intros Happ. apply (f_equal length) in Happ.
      rewrite length_app in Happ. simpl in Happ. lia.
    + apply matchAt_word; [done|]. by intros x s' [= <- _].
Qed.

(** X2: a command written as non-empty words without white space or quotes,
    separated by single spaces, is cut into exactly those words. *)
Theorem tokens_of_plain_words words :
  words ≠ [] → Forall plainWord words →
  tokens (join [SPACE] words) = Some words.
Proof.
  intros Hne Hall. unfold tokens, matchWords.
  rewrite trim_join_words, replaceSpaceRuns_join_words by done.
  rewrite scan_words by done. by destruct words.
Qed.

(** ** The parser *)

Lemma takesValue_isFlag f : takesValue f = true → isFlag f = true.
Proof.
  unfold takesValue. intros [[H|H]%orb_true_iff|H]%orb_true_iff.
  - by apply headerFlag_class.
  - by apply requestFlag_class.
  - by apply dataFlag_class.
Qed.

Lemma takesValue_cases f :
  takesValue f = true →
  isHeaderFlag f = true ∨ isRequestFlag f = true ∨ isDataFlag f = true.
Proof. unfold takesValue. rewrite !orb_true_iff. tauto. Qed.

Lemma flagValues_bare sel part rest :
  isFlag part = false → flagValues sel (part :: rest) = flagValues sel rest.
Proof. simpl. by intros ->. Qed.

Lemma flagValues_value sel part next rest :
  takesValue part = true →
  flagValues sel (part :: next :: rest) =
  if sel part then next :: flagValues sel rest else flagValues sel rest.
Proof. intros Ht. simpl. by rewrite (takesValue_isFlag _ Ht), Ht. Qed.

Lemma flagValues_unknown sel part rest :
  isFlag part = true → takesValue part = false →
  flagValues sel (part :: rest) = flagValues sel rest.
Proof. simpl. by intros -> ->. Qed.

Section ParserMore.

Variable toLowerCase toUpperCase : list N → list N.

(** Induction on a run of the loop that returns: one case per branch. *)
Lemma forParts_Return_ind
    (P : requestData → list jsstring → requestData → Prop) :
  (∀ r, P r [] r) →
  (∀ r t rest r', isFlag t = false →
     P (setUrl r (removeQuotes t)) rest r' → P r (t :: rest) r') →
  (∀ r h v rest r', isHeaderFlag h = true →
     P (setHeader r (headerName v) (headerText v)) rest r' →
     P r (h :: v :: rest) r') →
  (∀ r x v rest r', isRequestFlag x = true →
     P (setMethod r (toUpperCase v)) rest r' → P r (x :: v :: rest) r') →
  (∀ r d v rest r', isDataFlag d = true →
     P (if bool_decide (method r = js "GET")
        then setMethod (setData r (removeQuotes v)) (js "POST")
        else setData r (removeQuotes v)) rest r' →
     P r (d :: v :: rest) r') →
  (∀ r f rest r', isFlag f = true → takesValue f = false →
     P r rest r' → P r (f :: rest) r') →
  ∀ parts r r', forParts toUpperCase r parts = Return r' → P r parts r'.
Proof.
  intros Hnil Hbare Hheader Hrequest Hdata Hunknown parts.
  induction parts as [|x|x y l IHl IHyl] using pair_ind; intros r r'.
  - intros [= ->]. apply Hnil.
  - destruct (isFlag x) eqn:Hf.
    + destruct (takesValue x) eqn:Ht.
      * by rewrite forParts_missing.
      * rewrite forParts_unknown by done. intros [= ->].
        by apply Hunknown.
    + rewrite forParts_bare by done. intros [= <-]. by apply Hbare.
  - destruct (isFlag x) eqn:Hf.
    + destruct (isHeaderFlag x) eqn:Hh.
      { rewrite forParts_header, split_head, split_tail by done.
        intros H. apply Hheader; [done|]. by apply IHl. }
      destruct (isRequestFlag x) eqn:Hx.
      { rewrite forParts_request by done.
        intros H. apply Hrequest; [done|]. by apply IHl. }
      destruct (isDataFlag x) eqn:Hd.
      { rewrite forParts_data by done.
        intros H. apply Hdata; [done|]. by apply IHl. }
      assert (Ht : takesValue x = false)
        by (unfold takesValue; by rewrite Hh, Hx, Hd).
      rewrite (forParts_unknown _ _ x) by done.
      intros H. apply Hunknown; [done..|]. by apply IHyl.
    + rewrite (forParts_bare _ _ x) by done.
      intros H. apply Hbare; [done|]. by apply IHyl.
Qed.

(** A run of the loop that throws stopped at a last token that is a flag
    in want of its value. *)
Lemma forParts_Throw parts : ∀ r m,
  forParts toUpperCase r parts = Throw m →
  ∃ f, last parts = Some f ∧ takesValue f = true
    ∧ m = js "Missing value for " ++ f.
Proof.
  induction parts as [|x|x y l IHl IHyl] using pair_ind; intros r m.
  - done.
  - destruct (isFlag x) eqn:Hf.
    + destruct (takesValue x) eqn:Ht.
      * rewrite forParts_missing by done. intros [= <-]. by exists x.
      * by rewrite forParts_unknown.
    + by rewrite forParts_bare.
  - assert (Hlast : last (x :: y :: l) = last l ∨ l = []).
    { destruct l; [by right|by left]. }
    assert (Hyl : ∀ r0, forParts toUpperCase r0 (y :: l) = Throw m →
              ∃ f, last (x :: y :: l) = Some f ∧ takesValue f = true
                ∧ m = js "Missing value for " ++ f).
    { intros r0 H. by apply IHyl in H. }
    assert (Hl : ∀ r0, forParts toUpperCase r0 l = Throw m →
              ∃ f, last (x :: y :: l) = Some f ∧ takesValue f = true
                ∧ m = js "Missing value for " ++ f).
    { intros r0 H. destruct l as [|z l]; [done|]. by apply IHl in H. }
    destruct (isFlag x) eqn:Hf.
    + destruct (isHeaderFlag x) eqn:Hh.
      { rewrite forParts_header by done. apply Hl. }
      destruct (isRequestFlag x) eqn:Hx.
      { rewrite forParts_request by done. apply Hl. }
      destruct (isDataFlag x) eqn:Hd.
      { rewrite forParts_data by done. apply Hl. }
      assert (Ht : takesValue x = false)
        by (unfold takesValue; by rewrite Hh, Hx, Hd).
      rewrite (forParts_unknown _ _ x) by done. apply Hyl.
    + rewrite (forParts_bare _ _ x) by done. apply Hyl.
Qed.

(** X3: a value-taking flag that is the last token, read in flag position,
    makes the command fail with the message that names it. *)
Theorem missing_value_error cmd p0 pre f st :
  tokens cmd = Some (p0 :: pre ++ [f]) →
  forParts toUpperCase initialRequest pre = Return st →
  takesValue f = true →
  parseCurlCommand toLowerCase toUpperCase cmd
  = Throw (js "Error parsing curl command: Missing value for " ++ f).
Proof.
  intros Htok Hpre Ht.
  rewrite parseCurlCommand_eq, Htok, parseParts_Some.
  change (drop 1 (p0 :: pre ++ [f])) with (pre ++ [f]).
  rewrite (forParts_app _ _ _ _ _ Hpre), forParts_missing
    by (done || by apply takesValue_isFlag).
  done.
Qed.

(** X4: a failure of the parser carries one of four messages after the
    common prefix: no token, a flag without its value (the last token),
    no URL, or a URL that the URL expression refuses. *)
Theorem parse_error_messages cmd m :
  parseCurlCommand toLowerCase toUpperCase cmd = Throw m →
  ∃ m', m = js "Error parsing curl command: " ++ m'
    ∧ ((tokens cmd = None ∧ m' = js "Command must start with 'curl'")
       ∨ (∃ parts f, tokens cmd = Some parts ∧ last parts = Some f
            ∧ takesValue f = true ∧ m' = js "Missing value for " ++ f)
       ∨ (∃ parts r, tokens cmd = Some parts
            ∧ forParts toUpperCase initialRequest (drop 1 parts) = Return r
            ∧ url r = [] ∧ m' = js "No URL specified in curl command")
       ∨ (∃ parts r, tokens cmd = Some parts
            ∧ forParts toUpperCase initialRequest (drop 1 parts) = Return r
            ∧ url r ≠ [] ∧ URL_REGEX_test (url r) = false
            ∧ m' = js "Invalid URL format")).
Proof.
  rewrite parseCurlCommand_eq.
  destruct (tokens cmd) as [parts|] eqn:Htok.
  - rewrite parseParts_Some.
    destruct (forParts _ _ _) as [r|m0] eqn:Hloop.
    + destruct (url r) as [|c u] eqn:Hu.
      * simpl. intros [= <-]. eexists. split; [done|].
        right. right. left. by exists parts, r.
      * cbn [ToBoolean negb]. rewrite bool_decide_true by done. cbn [negb].
        destruct (URL_REGEX_test (c :: u)) eqn:Hre; [done|].
        intros [= <-]. eexists. split; [done|].
        right. right. right. exists parts, r. by rewrite Hu.
    + intros [= <-]. eexists. split; [done|]. right. left.
      apply forParts_Throw in Hloop as (f & Hlast & Ht & ->).
      exists parts, f. split_and!; try done.
      destruct parts as [|p0 [|p1 rest]]; [done..|].
      change (drop 1 (p0 :: p1 :: rest)) with (p1 :: rest) in Hlast.
      by rewrite last_cons, Hlast.
  - intros [= <-]. eexists. split; [done|]. by left.
Qed.

End ParserMore.

(** ** Trimming, prefixes and the URL expression *)

Lemma dropWhile_head {A} (p : A → bool) l :
  ∀ x l', dropWhile p l = x :: l' → p x = false.
Proof.
  induction l as [|y l IH]; intros x l'; simpl; [done|].
  destruct (p y) eqn:Hy; [apply IH|]. by intros [= <- _].
Qed.

Lemma dropWhile_id {A} (p : A → bool) l :
  (∀ x l', l = x :: l' → p x = false) → dropWhile p l = l.
Proof. destruct l as [|x l]; [done|]. intros H. simpl. by rewrite (H x l). Qed.

Lemma dropWhile_suffix {A} (p : A → bool) l : ∃ k, l = k ++ dropWhile p l.
Proof. exists (takeWhile p l). by rewrite takeWhile_dropWhile. Qed.

(** What [trim] returns neither starts nor ends with white space, so
    trimming it again changes nothing. *)
Lemma trim_idemp s : trim (trim s) = trim s.
Proof.
  unfold trim.
  set (a := dropWhile isWhiteSpace s).
  set (b := dropWhile isWhiteSpace (reverse a)).
  assert (Ha : ∀ x l', a = x :: l' → isWhiteSpace x = false)
    by apply dropWhile_head.
  assert (Hb : ∀ x l', b = x :: l' → isWhiteSpace x = false)
    by apply dropWhile_head.
  assert (Hrb : ∀ x l', reverse b = x :: l' → isWhiteSpace x = false).
  { intros x l' Hx. destruct (dropWhile_suffix isWhiteSpace (reverse a)) as [k Hk].
    fold b in Hk. apply (f_equal reverse) in Hk.
    rewrite reverse_involutive, reverse_app, Hx in Hk. by apply (Ha x (l' ++ reverse k)). }
  rewrite (dropWhile_id _ (reverse b)) by done.
  by rewrite reverse_involutive, (dropWhile_id _ b).
Qed.

Lemma startsWith_prefix p rest : startsWith (p ++ rest) p = true.
Proof. induction p as [|d p IH]; [by destruct rest|]. simpl. by rewrite N.eqb_refl. Qed.

Lemma URL_tail_ok r :
  bool_decide (r ≠ []) && forallb (λ c, negb ((c =? SPACE) || (c =? DQUOTE))) r = true
  ↔ r ≠ [] ∧ Forall (λ c, c ≠ SPACE ∧ c ≠ DQUOTE) r.
Proof.
  rewrite andb_true_iff, bool_decide_eq_true, forallb_forall, Forall_forall.
  split; intros [Hne Hall]; (split; [done|]); intros c Hc.
  - apply list_elem_of_In, Hall in Hc.
    apply negb_true_iff, orb_false_iff in Hc as [H1%N.eqb_neq H2%N.eqb_neq]. done.
  - apply list_elem_of_In, Hall in Hc as [H1%N.eqb_neq H2%N.eqb_neq].
    by rewrite H1, H2.
Qed.

Lemma URL_REGEX_test_true s :
  URL_REGEX_test s = true →
  ∃ rest, (s = js "http://" ++ rest ∨ s = js "https://" ++ rest)
    ∧ rest ≠ [] ∧ Forall (λ c, c ≠ SPACE ∧ c ≠ DQUOTE) rest.
Proof.
  unfold URL_REGEX_test. rewrite orb_true_iff, !andb_true_iff.
  intros [[Hp Hr] | [Hp Hr]].
  - apply andb_true_iff, URL_tail_ok in Hr as [Hne Hall].
    exists (drop 7 s). split; [|done]. left. by apply startsWith_app in Hp.
  - apply andb_true_iff, URL_tail_ok in Hr as [Hne Hall].
    exists (drop 8 s). split; [|done]. right. by apply startsWith_app in Hp.
Qed.

(** X5: the URL expression accepts exactly the strings made of [http://]
    or [https://] followed by at least one character, none of them a space
    or a double quote. *)
Theorem URL_REGEX_accepts s :
  URL_REGEX_test s = true ↔
  ∃ rest, (s = js "http://" ++ rest ∨ s = js "https://" ++ rest)
    ∧ rest ≠ [] ∧ Forall (λ c, c ≠ SPACE ∧ c ≠ DQUOTE) rest.
Proof.
  split; [apply URL_REGEX_test_true|].
  unfold URL_REGEX_test. rewrite orb_true_iff, !andb_true_iff.
  intros (rest & [-> | ->] & Hne & Hall).
  - left. split; [apply (startsWith_prefix (js "http://"))|].
    apply andb_true_iff. by apply (URL_tail_ok rest).
  - right. split; [apply (startsWith_prefix (js "https://"))|].
    apply andb_true_iff. by apply (URL_tail_ok rest).
Qed.

(** ** The characters of the tokens *)

Lemma replaceSpaceRuns_spaces b s :
  Forall (λ c, isWhiteSpace c = true → c = SPACE) (replaceSpaceRuns b s).
Proof.
  revert b. induction s as [|c s IH]; intros b; simpl; [done|].
  destruct (isWhiteSpace c) eqn:Hc.
  - destruct b; [apply IH|]. constructor; [done|apply IH].
  - constructor; [|apply IH]. by rewrite Hc.
Qed.

Section TokenChars.

Variable P : N → Prop.

Lemma alternative_chars s m rest :
  alternative s = Some (m, rest) → Forall P s → Forall P m ∧ Forall P rest.
Proof.
  assert (Hq : ∀ q, quotedSpan q s = Some (m, rest) →
                 Forall P s → Forall P m ∧ Forall P rest).
  { intros q. destruct s as [|c s']; simpl; [done|].
    destruct (c =? q) eqn:Hc; [|done]. apply N.eqb_eq in Hc as ->.
    destruct (dropWhile _ s') as [|d rest0] eqn:Hd; [done|].
    intros [= <- <-] [Hq Hs']%Forall_cons. split.
    - constructor; [done|]. apply Forall_app. split; [|by constructor].
      by apply Forall_takeWhile.
    - apply (Forall_dropWhile P (λ d, negb (d =? q))) in Hs'.
      rewrite Hd in Hs'. by apply Forall_cons in Hs' as [_ ?]. }
  unfold alternative. destruct (bareRun s) as [[m1 r1]|] eqn:H1.
  - intros [= <- <-] Hs. unfold bareRun in H1.
    destruct (takeWhile _ s) eqn:Ht; [done|]. injection H1 as <- <-.
    rewrite <- Ht. split; [by apply Forall_takeWhile|by apply Forall_dropWhile].
  - destruct (quotedSpan DQUOTE s) as [[m2 r2]|] eqn:H2.
    + intros [= <- <-]. by apply (Hq DQUOTE).
    + apply Hq.
Qed.

Lemma iterations_chars n : ∀ s m rest,
  iterations n s = (m, rest) → Forall P s → Forall P m ∧ Forall P rest.
Proof.
  induction n as [|n IH]; intros s m rest; simpl.
  - by intros [= <- <-].
  - destruct (alternative s) as [[m1 r1]|] eqn:Halt; [|by intros [= <- <-]].
    destruct (iterations n r1) as [ms r2] eqn:Hit. intros [= <- <-] Hs.
    destruct (alternative_chars _ _ _ Halt Hs) as [Hm1 Hr1].
    destruct (IH _ _ _ Hit Hr1) as [Hms Hr2].
    split; [by apply Forall_app|done].
Qed.

Lemma scan_chars n : ∀ s, Forall P s → Forall (Forall P) (scan n s).
Proof.
  induction n as [|n IH]; intros s Hs; simpl; [done|].
  destruct s as [|c s']; [done|].
  destruct (matchAt (c :: s')) as [[m rest]|] eqn:Hm.
  - unfold matchAt in Hm.
    destruct (iterations _ _) as [m1 r1] eqn:Hit.
    destruct (iterations_chars _ _ _ _ Hit Hs) as [Hm1 Hr1].
    destruct m1; [done|]. injection Hm as <- <-. constructor; [done|by apply IH].
  - apply IH. by apply Forall_cons in Hs as [_ ?].
Qed.

End TokenChars.

(** The only white space left in a token is the space. *)
Lemma tokens_spaces cmd parts :
  tokens cmd = Some parts →
  Forall (Forall (λ c, isWhiteSpace c = true → c = SPACE)) parts.
Proof.
  unfold tokens, matchWords.
  pose proof (scan_chars _ (length (replaceSpaceRuns false (trim cmd))) _
                (replaceSpaceRuns_spaces false (trim cmd))) as Hall.
  destruct (scan _ _); [done|]. by intros [= <-].
Qed.

Lemma headerFlag_only h :
  isHeaderFlag h = true → isRequestFlag h = false ∧ isDataFlag h = false.
Proof. by intros [-> | ->]%headerFlag_inv. Qed.

Lemma requestFlag_only x :
  isRequestFlag x = true → isHeaderFlag x = false ∧ isDataFlag x = false.
Proof. by intros [-> | ->]%requestFlag_inv. Qed.

Lemma dataFlag_only d :
  isDataFlag d = true → isHeaderFlag d = false ∧ isRequestFlag d = false.
Proof. by intros [-> | [-> | ->]]%dataFlag_inv. Qed.

Lemma headerFlag_takesValue h : isHeaderFlag h = true → takesValue h = true.
Proof. unfold takesValue. by intros ->. Qed.

Lemma requestFlag_takesValue x : isRequestFlag x = true → takesValue x = true.
Proof. unfold takesValue. intros ->. by rewrite orb_true_r. Qed.

Lemma dataFlag_takesValue d : isDataFlag d = true → takesValue d = true.
Proof. unfold takesValue. intros ->. by rewrite orb_true_r. Qed.

Section ParserResults.

Variable toLowerCase toUpperCase : list N → list N.

(** X6: an empty command, or one of white space only, is refused with the
    message about the keyword. *)
Theorem blank_command_rejected cmd :
  Forall (λ c, isWhiteSpace c = true) cmd →
  parseCurlCommand toLowerCase toUpperCase cmd
  = Throw (js "Error parsing curl command: Command must start with 'curl'").
Proof.
  intros Hall. rewrite parseCurlCommand_eq. unfold tokens, trim.
  by rewrite (dropWhile_all _ _ Hall).
Qed.

(** X7: the loop is sequential: reading [pre ++ post] is reading [pre] and
    then [post] from the state reached, provided [pre] does not end on a
    flag in want of its value. *)
Theorem forParts_sequential r pre st post :
  forParts toUpperCase r pre = Return st →
  forParts toUpperCase r (pre ++ post) = forParts toUpperCase st post.
Proof.
  intros Hpre. revert post. revert pre r st Hpre.
  apply (forParts_Return_ind toUpperCase (λ r pre st,
    ∀ post, forParts toUpperCase r (pre ++ post) = forParts toUpperCase st post)).
  - done.
  - intros r t rest st Ht IH post. simpl app. by rewrite forParts_bare.
  - intros r h v rest st Hh IH post. simpl app.
    by rewrite forParts_header, split_head, split_tail.
  - intros r x v rest st Hx IH post. simpl app. by rewrite forParts_request.
  - intros r d v rest st Hd IH post. simpl app. by rewrite forParts_data.
  - intros r f rest st Hf Ht IH post. simpl app. by rewrite forParts_unknown.
Qed.

Lemma forParts_url_spaces parts r r' :
  forParts toUpperCase r parts = Return r' →
  Forall (Forall (λ c, isWhiteSpace c = true → c = SPACE)) parts →
  Forall (λ c, isWhiteSpace c = true → c = SPACE) (url r) →
  Forall (λ c, isWhiteSpace c = true → c = SPACE) (url r').
Proof.
  revert parts r r'.
  apply (forParts_Return_ind toUpperCase (λ r parts r',
    Forall (Forall (λ c, isWhiteSpace c = true → c = SPACE)) parts →
    Forall (λ c, isWhiteSpace c = true → c = SPACE) (url r) →
    Forall (λ c, isWhiteSpace c = true → c = SPACE) (url r'))).
  - done.
  - intros r t rest r' _ IH [Ht Hrest]%Forall_cons _. apply IH; [done|].
    simpl. unfold removeQuotes. rewrite Forall_forall in *.
    intros c [_ Hc]%list_elem_of_filter. by apply Ht.
  - intros r h v rest r' _ IH [_ [_ Hrest]%Forall_cons]%Forall_cons. by apply IH.
  - intros r x v rest r' _ IH [_ [_ Hrest]%Forall_cons]%Forall_cons. by apply IH.
  - intros r d v rest r' _ IH [_ [_ Hrest]%Forall_cons]%Forall_cons Hu.
    apply IH; [done|]. by case_bool_decide.
  - intros r f rest r' _ _ IH [_ Hrest]%Forall_cons. by apply IH.
Qed.

Lemma forParts_params parts r r' :
  forParts toUpperCase r parts = Return r' → params r' = params r.
Proof.
  revert parts r r'.
  apply (forParts_Return_ind toUpperCase (λ r parts r', params r' = params r));
    try done.
  intros r d v rest r' _ ->. by case_bool_decide.
Qed.

(** X8: the descriptor of a command that parses has a URL made of
    [http://] or [https://] and at least one more character, with no white
    space and no quote in it; its body and headers hold no quote either,
    and [params] is empty. *)
Theorem parsed_request_invariant cmd r :
  parseCurlCommand toLowerCase toUpperCase cmd = Return r →
  (∃ rest, (url r = js "http://" ++ rest ∨ url r = js "https://" ++ rest)
     ∧ rest ≠ [])
  ∧ Forall plainChar (url r)
  ∧ quoteFree r
  ∧ params r = ∅.
Proof.
  intros (parts & Htok & Hloop & Hne & Hre)%parseCurlCommand_Return.
  assert (Hq : quoteFree r).
  { apply (forParts_quoteFree _ _ _ _ Hloop).
    split; [constructor|]. split; [done|]. intros k v. simpl.
    by rewrite lookup_empty. }
  apply URL_REGEX_test_true in Hre as (rest & Hurl & Hrest & Hall).
  split_and!.
  - by exists rest.
  - assert (Hsp : Forall (λ c, c ≠ SPACE) (url r)).
    { destruct Hurl as [-> | ->]; apply Forall_app; split;
        try (eapply Forall_impl; [exact Hall|]; by intros c [? _]);
        by repeat constructor. }
    assert (Hws : Forall (λ c, isWhiteSpace c = true → c = SPACE) (url r)).
    { apply (forParts_url_spaces _ _ _ Hloop); [|done].
      apply tokens_spaces in Htok. by apply Forall_drop. }
    destruct Hq as [Hqu _]. unfold noQuote in Hqu.
    rewrite Forall_forall in *. intros c Hc. split; [|by apply Hqu].
    destruct (isWhiteSpace c) eqn:Hw; [|done].
    by destruct (Hsp c Hc), (Hws c Hc Hw).
  - done.
  - by rewrite (forParts_params _ _ _ Hloop).
Qed.

Lemma forParts_data_last parts r r' :
  forParts toUpperCase r parts = Return r' →
  data r' = match last (flagValues isDataFlag parts) with
            | Some v => Some (removeQuotes v)
            | None => data r
            end.
Proof.
  revert parts r r'.
  apply (forParts_Return_ind toUpperCase (λ r parts r',
    data r' = match last (flagValues isDataFlag parts) with
              | Some v => Some (removeQuotes v)
              | None => data r
              end)).
  - done.
  - intros r t rest r' Ht ->. by rewrite flagValues_bare.
  - intros r h v rest r' Hh ->.
    rewrite flagValues_value by by apply headerFlag_takesValue.
    by destruct (headerFlag_only h Hh) as [_ ->].
  - intros r x v rest r' Hx ->.
    rewrite flagValues_value by by apply requestFlag_takesValue.
    by destruct (requestFlag_only x Hx) as [_ ->].
  - intros r d v rest r' Hd ->.
    rewrite flagValues_value, Hd, last_cons by by apply dataFlag_takesValue.
    destruct (last (flagValues isDataFlag rest)); [done|].
    by case_bool_decide.
  - intros r f rest r' Hf Ht ->. by rewrite flagValues_unknown.
Qed.

(** X9: the body of the descriptor is the value of the last data flag with
    its quotes deleted, and null when the command has no data flag. *)
Theorem parsed_body_is_last_data_value cmd r :
  parseCurlCommand toLowerCase toUpperCase cmd = Return r →
  ∃ parts, tokens cmd = Some parts
    ∧ data r = removeQuotes <$> last (flagValues isDataFlag (drop 1 parts)).
Proof.
  intros (parts & Htok & Hloop & _)%parseCurlCommand_Return.
  exists parts. split; [done|].
  rewrite (forParts_data_last _ _ _ Hloop).
  by destruct (last _).
Qed.

Lemma forParts_headers_fold parts r r' :
  forParts toUpperCase r parts = Return r' →
  headers r' = foldl (λ m v, if bool_decide (headerName v = js "__proto__") then m
                             else <[headerName v := headerText v]> m)
                 (headers r) (flagValues isHeaderFlag parts).
Proof.
  revert parts r r'.
  apply (forParts_Return_ind toUpperCase (λ r parts r',
    headers r' = foldl (λ m v, if bool_decide (headerName v = js "__proto__") then m
                               else <[headerName v := headerText v]> m)
                   (headers r) (flagValues isHeaderFlag parts))).
  - done.
  - intros r t rest r' Ht ->. by rewrite flagValues_bare.
  - intros r h v rest r' Hh ->.
    by rewrite flagValues_value, Hh by by apply headerFlag_takesValue.
  - intros r x v rest r' Hx ->.
    rewrite flagValues_value by by apply requestFlag_takesValue.
    by destruct (requestFlag_only x Hx) as [-> _].
  - intros r d v rest r' Hd ->.
    rewrite flagValues_value by by apply dataFlag_takesValue.
    destruct (dataFlag_only d Hd) as [-> _]. by case_bool_decide.
  - intros r f rest r' Hf Ht ->. by rewrite flagValues_unknown.
Qed.

Lemma size_foldl_insert (f g : list N → list N) (skip : list N → bool) l :
  ∀ m : gmap (list N) (list N),
  (size (foldl (λ m v, if skip v then m else <[f v := g v]> m) m l)
   ≤ size m + length l)%nat.
Proof.
  induction l as [|v l IH]; intros m; simpl; [lia|].
  etrans; [apply IH|]. destruct (skip v); [lia|]. rewrite map_size_insert.
  destruct (m !! f v); simpl; lia.
Qed.

(** X10: the headers of the descriptor are the header-flag values assigned
    one after the other, in command order, into an empty map under their
    trimmed names, a value whose name is [__proto__] being passed over; so
    there are at most as many headers as header flags. *)
Theorem parsed_headers_are_assignments cmd r :
  parseCurlCommand toLowerCase toUpperCase cmd = Return r →
  ∃ parts, tokens cmd = Some parts
    ∧ headers r
      = foldl (λ m v,
                 if bool_decide (trim (beforeColon (removeQuotes v)) = js "__proto__")
                 then m
                 else <[trim (beforeColon (removeQuotes v)) :=
                         trim (afterColon (removeQuotes v))]> m)
          ∅ (flagValues isHeaderFlag (drop 1 parts))
    ∧ (size (headers r) ≤ length (flagValues isHeaderFlag (drop 1 parts)))%nat.
Proof.
  intros (parts & Htok & Hloop & _)%parseCurlCommand_Return.
  exists parts. split; [done|].
  rewrite (forParts_headers_fold _ _ _ Hloop). split; [done|].
  etrans; [apply (size_foldl_insert headerName headerText
                    (λ v, bool_decide (headerName v = js "__proto__")))|].
  simpl. by rewrite map_size_empty.
Qed.

End ParserResults.

Section ParserMethod.

Variable toLowerCase toUpperCase : list N → list N.

Lemma forParts_method_no_data parts r r' :
  forParts toUpperCase r parts = Return r' →
  flagValues isDataFlag parts = [] →
  method r' = from_option toUpperCase (method r)
                (last (flagValues isRequestFlag parts)).
Proof.
  revert parts r r'.
  apply (forParts_Return_ind toUpperCase (λ r parts r',
    flagValues isDataFlag parts = [] →
    method r' = from_option toUpperCase (method r)
                  (last (flagValues isRequestFlag parts)))).
  - done.
  - intros r t rest r' Ht IH. rewrite !flagValues_bare by done. apply IH.
  - intros r h v rest r' Hh IH.
    rewrite !flagValues_value by by apply headerFlag_takesValue.
    destruct (headerFlag_only h Hh) as [-> ->]. apply IH.
  - intros r x v rest r' Hx IH.
    rewrite !flagValues_value by by apply requestFlag_takesValue.
    destruct (requestFlag_only x Hx) as [_ ->]. rewrite Hx, last_cons.
    intros ->%IH. by destruct (last _).
  - intros r d v rest r' Hd _.
    by rewrite flagValues_value, Hd by by apply dataFlag_takesValue.
  - intros r f rest r' Hf Ht IH. rewrite !flagValues_unknown by done. apply IH.
Qed.

(** X11: in a command without a data flag the method is the upper-cased
    value of the last request flag, and GET when there is none. *)
Theorem method_without_data_flag cmd r :
  parseCurlCommand toLowerCase toUpperCase cmd = Return r →
  ∃ parts, tokens cmd = Some parts
    ∧ (flagValues isDataFlag (drop 1 parts) = [] →
       method r = from_option toUpperCase (js "GET")
                    (last (flagValues isRequestFlag (drop 1 parts)))).
Proof.
  intros (parts & Htok & Hloop & _)%parseCurlCommand_Return.
  exists parts. split; [done|]. apply (forParts_method_no_data _ _ _ Hloop).
Qed.

Lemma forParts_method_no_request parts r r' :
  forParts toUpperCase r parts = Return r' →
  flagValues isRequestFlag parts = [] →
  method r = js "GET" ∨ method r = js "POST" →
  method r' = match flagValues isDataFlag parts with
              | [] => method r
              | _ :: _ => js "POST"
              end.
Proof.
  revert parts r r'.
  apply (forParts_Return_ind toUpperCase (λ r parts r',
    flagValues isRequestFlag parts = [] →
    method r = js "GET" ∨ method r = js "POST" →
    method r' = match flagValues isDataFlag parts with
                | [] => method r
                | _ :: _ => js "POST"
                end)).
  - done.
  - intros r t rest r' Ht IH. rewrite !flagValues_bare by done. apply IH.
  - intros r h v rest r' Hh IH.
    rewrite !flagValues_value by by apply headerFlag_takesValue.
    destruct (headerFlag_only h Hh) as [-> ->]. apply IH.
  - intros r x v rest r' Hx _.
    by rewrite flagValues_value, Hx by by apply requestFlag_takesValue.
  - intros r d v rest r' Hd IH.
    rewrite !flagValues_value by by apply dataFlag_takesValue.
    destruct (dataFlag_only d Hd) as [_ ->]. rewrite Hd.
    intros Hnone Hm. rewrite IH; [|done|].
    + case_bool_decide as Hget; simpl.
      * by destruct (flagValues isDataFlag rest).
      * destruct Hm as [Hm|Hm]; [done|]. by destruct (flagValues isDataFlag rest).
    + case_bool_decide; simpl; tauto.
  - intros r f rest r' Hf Ht IH. rewrite !flagValues_unknown by done. apply IH.
Qed.

(** X12: in a command without a request flag the method is POST when the
    command has a data flag and GET when it has none. *)
Theorem method_without_request_flag cmd r :
  parseCurlCommand toLowerCase toUpperCase cmd = Return r →
  ∃ parts, tokens cmd = Some parts
    ∧ (flagValues isRequestFlag (drop 1 parts) = [] →
       method r = match flagValues isDataFlag (drop 1 parts) with
                  | [] => js "GET"
                  | _ :: _ => js "POST"
                  end).
Proof.
  intros (parts & Htok & Hloop & _)%parseCurlCommand_Return.
  exists parts. split; [done|]. intros Hnone.
  apply (forParts_method_no_request _ _ _ Hloop Hnone). by left.
Qed.

Lemma elem_of_dropWhile {A} (p : A → bool) x l :
  x ∈ dropWhile p l → x ∈ l.
Proof.
  induction l as [|y l IH]; simpl; [done|].
  destruct (p y); [|done]. intros ?%IH. by apply elem_of_cons; right.
Qed.

Lemma trim_no_colon s : COLON ∉ s → COLON ∉ trim s.
Proof.
  intros Hs Hin. apply Hs. unfold trim in Hin.
  by apply elem_of_reverse, elem_of_dropWhile, elem_of_reverse,
    elem_of_dropWhile in Hin.
Qed.

Lemma beforeColon_no_colon s : COLON ∉ beforeColon s.
Proof.
  unfold beforeColon. induction s as [|c s IH]; simpl; [by intros ?%elem_of_nil|].
  destruct (c =? COLON) eqn:Hc; simpl; [by intros ?%elem_of_nil|].
  apply N.eqb_neq in Hc. intros [Heq|Hin]%elem_of_cons; [|by apply IH].
  by apply Hc.
Qed.

Lemma forParts_header_names parts r r' :
  forParts toUpperCase r parts = Return r' →
  (∀ k v, headers r !! k = Some v → (COLON ∉ k) ∧ trim k = k ∧ trim v = v) →
  ∀ k v, headers r' !! k = Some v → (COLON ∉ k) ∧ trim k = k ∧ trim v = v.
Proof.
  revert parts r r'.
  apply (forParts_Return_ind toUpperCase (λ r parts r',
    (∀ k v, headers r !! k = Some v → (COLON ∉ k) ∧ trim k = k ∧ trim v = v) →
    ∀ k v, headers r' !! k = Some v → (COLON ∉ k) ∧ trim k = k ∧ trim v = v));
    try done.
  - intros r h v rest r' Hh IH Hr. apply IH. intros k w. simpl.
    case_bool_decide; [apply Hr|].
    destruct (decide (k = headerName v)) as [->|Hne].
    + rewrite lookup_insert_eq. intros [= <-]. unfold headerName, headerText.
      split_and!; [|apply trim_idemp..].
      apply trim_no_colon, beforeColon_no_colon.
    + rewrite lookup_insert_ne by done. apply Hr.
  - intros r d v rest r' Hd IH Hr. apply IH. by case_bool_decide.
Qed.

(** X13: in the descriptor of a command that parses no header name
    contains a colon, and names and values neither start nor end with
    white space. *)
Theorem parsed_header_names_trimmed cmd r k v :
  parseCurlCommand toLowerCase toUpperCase cmd = Return r →
  headers r !! k = Some v →
  (COLON ∉ k) ∧ trim k = k ∧ trim v = v.
Proof.
  intros (parts & Htok & Hloop & _)%parseCurlCommand_Return.
  apply (forParts_header_names _ _ _ Hloop). intros k' v'. simpl.
  by rewrite lookup_empty.
Qed.

End ParserMethod.

(** ** The request analyser, further *)

Lemma utf8_length_max cp : cp < 65536 → (length (utf8 cp) ≤ 3)%nat.
Proof.
  intros Hcp. unfold utf8.
  destruct (cp <? 128); [simpl; lia|]. destruct (cp <? 2048); [simpl; lia|].
  apply N.ltb_lt in Hcp as ->. simpl. lia.
Qed.

Lemma utf8Encode_length_max s :
  Forall (λ c, c < 65536) s → (length (utf8Encode s) ≤ 3 * length s)%nat.
Proof.
  induction s as [|x|x y l IHl IHyl] using pair_ind.
  - done.
  - intros [Hx _]%Forall_cons. unfold utf8Encode. simpl.
    destruct (isHighSurrogate x); [simpl; lia|].
    destruct (isLowSurrogate x); [simpl; lia|].
    simpl. rewrite app_nil_r. pose proof (utf8_length_max x Hx). lia.
  - intros [Hx Hyl]%Forall_cons. pose proof Hyl as [Hy Hl]%Forall_cons.
    specialize (IHl Hl). specialize (IHyl Hyl).
    destruct (isHighSurrogate x) eqn:Hhi.
    { destruct (isLowSurrogate y) eqn:Hlo.
      - rewrite utf8Encode_pair, length_app by done.
        assert (length (utf8 (65536 + (x - 55296) * 1024 + (y - 56320))) = 4%nat) as ->.
        { unfold utf8.
          replace (_ <? 128) with false by (symmetry; apply N.ltb_ge; lia).
          replace (_ <? 2048) with false by (symmetry; apply N.ltb_ge; lia).
          by replace (_ <? 65536) with false by (symmetry; apply N.ltb_ge; lia). }
        cbn [length] in *. lia.
      - rewrite utf8Encode_lone_high, length_app by done.
        cbn [length] in *. change (length (utf8 65533)) with 3%nat. lia. }
    destruct (isLowSurrogate x) eqn:Hlo.
    { rewrite utf8Encode_lone_low, length_app by done.
      cbn [length] in *. change (length (utf8 65533)) with 3%nat. lia. }
    rewrite utf8Encode_cons_plain, length_app by done.
    pose proof (utf8_length_max x Hx). cbn [length] in *. lia.
Qed.

Section RequestAnalyzerMore.

Variable URL : list N → option URLObject.

(** X14: how the finding depends on the two headers.  With an [X-API-Key]
    header the type is always [API Key]; without it the type follows the
    [Authorization] value, [Basic Auth] or [Bearer Token] by its prefix and
    null otherwise; with neither header nothing is present; and the type
    is null whenever [present] is false. *)
Theorem authentication_by_headers r u :
  URL (url r) = Some u →
  ∃ a, analyzeRequest URL r = Some a
    ∧ (is_Some (headers r !! js "X-API-Key") →
       a_authentication a = Authentication true (Some (js "API Key")))
    ∧ (∀ v, headers r !! js "X-API-Key" = None →
         headers r !! js "Authorization" = Some v →
         a_authentication a =
           Authentication true
             (if startsWith v (js "Bearer") then Some (js "Bearer Token")
              else if startsWith v (js "Basic") then Some (js "Basic Auth")
              else None))
    ∧ (headers r !! js "X-API-Key" = None →
       headers r !! js "Authorization" = None →
       a_authentication a = Authentication false None)
    ∧ (present (a_authentication a) = false → type (a_authentication a) = None).
Proof.
  intros (a & Ha & Hauth & _)%analyzeRequest_Some.
  exists a. split; [done|]. rewrite Hauth.
  assert (Hdom : ∀ k, bool_decide (k ∈ dom (headers r))
                      = bool_decide (is_Some (headers r !! k))).
  { intros k. apply bool_decide_ext, elem_of_dom. }
  rewrite bool_decide_or, !Hdom.
  unfold lastMatching, authHeaders, ruleMatches. cbn [List.filter fst snd].
  destruct (headers r !! js "X-API-Key") as [k|] eqn:Hk;
    destruct (headers r !! js "Authorization") as [v|] eqn:Hv.
  - split_and!; [|done..].
    intros _. by destruct (startsWith v (js "Bearer")), (startsWith v (js "Basic")).
  - by split_and!.
  - split_and!; [by intros [? ?]| |done|done].
    intros v' _ [= <-].
    destruct (startsWith v (js "Bearer")) eqn:Hb.
    + by rewrite (bearer_not_basic v Hb).
    + by destruct (startsWith v (js "Basic")).
  - split_and!; [by intros [? ?]|done..].
Qed.

(** X15: for a body that is not empty, made of 16-bit code units, the size
    reported lies between the number of code units and three times that
    number; the preview is the body itself up to 200 code units, and
    otherwise 203 code units long, the first 200 being those of the body. *)
Theorem body_summary_bounds r u d :
  URL (url r) = Some u → data r = Some d → d ≠ [] →
  Forall (λ c, c < 65536) d →
  ∃ a n p, analyzeRequest URL r = Some a
    ∧ a_body a = BodyPresent n p
    ∧ (length d ≤ n ≤ 3 * length d)%nat
    ∧ take 200 p = take 200 d
    ∧ ((length d ≤ 200)%nat → p = d)
    ∧ ((200 < length d)%nat → length p = 203%nat).
Proof.
  intros (a & Ha & _ & Hbody)%analyzeRequest_Some Hd Hne H16.
  rewrite Hd in Hbody. destruct d as [|c d]; [done|].
  cbn [ToBoolean] in Hbody. rewrite bool_decide_true in Hbody by done.
  eexists a, _, _. split; [done|]. split; [exact Hbody|].
  assert (Hsize : BlobSize [c :: d] = length (utf8Encode (c :: d))).
  { unfold BlobSize. rewrite bind_cons. simpl. by rewrite app_nil_r. }
  rewrite Hsize. split_and!.
  - apply utf8Encode_length.
  - by apply utf8Encode_length_max.
  - destruct (200 <? length (c :: d))%nat eqn:Hlen; [|done].
    apply Nat.ltb_lt in Hlen. rewrite take_app_le; [|rewrite length_take; lia].
    by rewrite take_take.
  - intros Hlen. by apply Nat.ltb_ge in Hlen as ->.
  - intros Hlen. pose proof Hlen as ->%Nat.ltb_lt.
    rewrite length_app, length_take. change (length (js "...")) with 3%nat. lia.
Qed.

End RequestAnalyzerMore.

(** ** The response analyser, further *)

Section ResponseAnalyzerMore.

Variable axios : requestData → completion response.

(** X16: the analyser fails exactly when the HTTP call fails, with the
    message of the call after a fixed prefix; every response, whatever its
    status, gives an analysis that carries the status and the final URL,
    with a redirect count that is never more than 1 and is 0 exactly when
    the final URL is the requested one. *)
Theorem response_outcome r :
  (∀ m, analyzeResponse axios r = Throw m ↔
        ∃ m', axios r = Throw m' ∧ m = js "Request failed: " ++ m')
  ∧ (∀ resp, axios r = Return resp →
        ∃ a, analyzeResponse axios r = Return a
          ∧ status_code a = status resp
          ∧ final_url a = responseUrl resp)
  ∧ (∀ a, analyzeResponse axios r = Return a →
        (redirect_count a = 0 ∨ redirect_count a = 1)
        ∧ (redirect_count a = 0 ↔ final_url a = url r)).
Proof.
  unfold analyzeResponse. destruct (axios r) as [resp|m0]; split_and!.
  - intros m. split; [done|]. by intros (m' & [=] & _).
  - intros resp' [= <-]. by eexists.
  - intros a [= <-]. cbn [redirect_count final_url].
    destruct (decide (responseUrl resp = url r)) as [Heq|Hne].
    + rewrite bool_decide_false by (by intros ?). split; [by left|done].
    + rewrite bool_decide_true by done. split; [by right|done].
  - intros m. split.
    + intros [= <-]. by exists m0.
    + by intros (m' & [= <-] & ->).
  - done.
  - done.
Qed.

(** X17: the defaults of the analysis.  The encoding is never the empty
    string: it is [identity] when the header is missing or empty; the
    cookies are the empty array when no [set-cookie] header came. *)
Theorem response_defaults r a :
  analyzeResponse axios r = Return a →
  encoding a ≠ Single []
  ∧ (∀ resp, axios r = Return resp →
       (response_headers resp !! js "content-encoding" = None
        ∨ response_headers resp !! js "content-encoding" = Some (Single []) →
        encoding a = Single (js "identity"))
       ∧ (response_headers resp !! js "set-cookie" = None →
          cookies a = Multiple [])).
Proof.
  unfold analyzeResponse. destruct (axios r) as [resp|m0]; [|done].
  intros [= <-]. cbn [encoding cookies]. unfold headerOr. split_and!.
  - destruct (response_headers resp !! js "content-encoding") as [[s|l]|]; [|done..].
    destruct s as [|c s]; [done|]. cbn [ToBoolean]. by rewrite bool_decide_true.
  - intros resp' [= <-]. split.
    + by intros [-> | ->].
    + by intros ->.
Qed.

End ResponseAnalyzerMore.

(** ** The component *)

(** X18: whatever happens, the component ends not loading, with the same
    command and the same tab; and either the three stages succeeded, the
    error is empty and the analysis is the new pair, or the analysis it had
    is kept and the error is the message of the stage that failed. *)
Theorem handleAnalyze_outcome lo up URL URLError axios s :
  loading (handleAnalyze lo up URL URLError axios s) = false
  ∧ curlCommand (handleAnalyze lo up URL URLError axios s) = curlCommand s
  ∧ tabValue (handleAnalyze lo up URL URLError axios s) = tabValue s
  ∧ ((∃ rd ra a,
        parseCurlCommand lo up (curlCommand s) = Return rd
        ∧ analyzeRequest URL rd = Some ra
        ∧ analyzeResponse axios rd = Return a
        ∧ error (handleAnalyze lo up URL URLError axios s) = []
        ∧ analysisData (handleAnalyze lo up URL URLError axios s)
          = Some {| ad_request := ra; ad_response := a |})
     ∨ (analysisData (handleAnalyze lo up URL URLError axios s) = analysisData s
        ∧ tryAnalyze lo up URL URLError axios (curlCommand s)
          = Throw (error (handleAnalyze lo up URL URLError axios s)))).
Proof.
  unfold handleAnalyze, tryAnalyze.
  destruct (parseCurlCommand lo up (curlCommand s)) as [rd|m] eqn:Hparse;
    [|split_and!; [done..|by right]].
  destruct (analyzeRequest URL rd) as [ra|] eqn:Hreq;
    [|split_and!; [done..|by right]].
  destruct (analyzeResponse axios rd) as [a|m] eqn:Hresp;
    [|split_and!; [done..|by right]].
  split_and!; [done..|]. left. exists rd, ra, a. by split_and!.
Qed.

(** X19: when the command does not parse, the outcome does not depend on
    the URL parser or on the HTTP call, so neither decides anything: the
    component shows the message of the parser and keeps the analysis it
    had. *)
Theorem parse_failure_stops_pipeline lo up s m :
  parseCurlCommand lo up (curlCommand s) = Throw m →
  ∀ URL URLError axios,
    handleAnalyze lo up URL URLError axios s =
      {| curlCommand := curlCommand s; loading := false; error := m;
         analysisData := analysisData s; tabValue := tabValue s |}.
Proof.
  intros Hparse URL URLError axios. unfold handleAnalyze, tryAnalyze.
  by rewrite Hparse.
Qed.

(** X20: when the URL of the parsed command is refused by the URL parser,
    the outcome does not depend on the HTTP call: the component shows the
    message of the URL parser and keeps the analysis it had. *)
Theorem invalid_url_stops_pipeline lo up URL URLError s rd :
  parseCurlCommand lo up (curlCommand s) = Return rd →
  URL (url rd) = None →
  ∀ axios,
    handleAnalyze lo up URL URLError axios s =
      {| curlCommand := curlCommand s; loading := false;
         error := URLError (url rd);
         analysisData := analysisData s; tabValue := tabValue s |}.
Proof.
  intros Hparse Hurl axios. unfold handleAnalyze, tryAnalyze, analyzeRequest.
  by rewrite Hparse, Hurl.
Qed.

(** X21: when the HTTP call fails, the request analysis already computed
    is dropped: the component shows the message of the call after its
    prefix and keeps the analysis it had. *)
Theorem transport_failure_keeps_previous lo up URL URLError axios s rd ra m :
  parseCurlCommand lo up (curlCommand s) = Return rd →
  analyzeRequest URL rd = Some ra →
  axios rd = Throw m →
  handleAnalyze lo up URL URLError axios s =
    {| curlCommand := curlCommand s; loading := false;
       error := js "Request failed: " ++ m;
       analysisData := analysisData s; tabValue := tabValue s |}.
Proof.
  intros Hparse Hreq Hresp. unfold handleAnalyze, tryAnalyze, analyzeResponse.
  by rewrite Hparse, Hreq, Hresp.
Qed.

(** ** The further properties at concrete inputs *)

Lemma tokens_first_and_nonempty_witness :
  tokens (js "  curl   -v ") = Some [js "curl"; js "-v"]
  ∧ ∃ p0 rest, [js "curl"; js "-v"] = p0 :: rest ∧ p0 ≠ []
      ∧ Forall (λ t, t ≠ []) rest.
Proof.
  assert (H : tokens (js "  curl   -v ") = Some [js "curl"; js "-v"])
    by (vm_compute; reflexivity).
  exact (conj H (tokens_first_and_nonempty _ _ H)).
Defined.

Lemma plainWord_check w :
  w ≠ [] → forallb (λ c, negb (isWhiteSpace c || isQuote c)) w = true →
  plainWord w.
Proof.
  intros Hne Hall. split; [done|]. apply Forall_forall. intros c Hc.
  rewrite forallb_forall in Hall. apply list_elem_of_In, Hall in Hc.
  by apply negb_true_iff, orb_false_iff in Hc.
Qed.

Lemma tokens_of_plain_words_witness :
  [js "curl"; js "-v"; js "https://example.com"] ≠ []
  ∧ Forall plainWord [js "curl"; js "-v"; js "https://example.com"]
  ∧ tokens (join [SPACE] [js "curl"; js "-v"; js "https://example.com"])
    = Some [js "curl"; js "-v"; js "https://example.com"].
Proof.
  assert (H1 : [js "curl"; js "-v"; js "https://example.com"] ≠ []) by done.
  assert (H2 : Forall plainWord [js "curl"; js "-v"; js "https://example.com"]).
  { repeat constructor; by apply plainWord_check. }
  exact (conj H1 (conj H2 (tokens_of_plain_words _ H1 H2))).
Defined.

Lemma missing_value_error_witness :
  tokens (js "curl https://example.com -H")
    = Some (js "curl" :: [js "https://example.com"] ++ [js "-H"])
  ∧ forParts asciiUpper initialRequest [js "https://example.com"]
    = Return (plainGET (js "https://example.com"))
  ∧ takesValue (js "-H") = true
  ∧ parse (js "curl https://example.com -H")
    = Throw (js "Error parsing curl command: Missing value for " ++ js "-H").
Proof.
  assert (H1 : tokens (js "curl https://example.com -H")
    = Some (js "curl" :: [js "https://example.com"] ++ [js "-H"]))
    by (vm_compute; reflexivity).
  assert (H2 : forParts asciiUpper initialRequest [js "https://example.com"]
    = Return (plainGET (js "https://example.com"))) by (vm_compute; reflexivity).
  assert (H3 : takesValue (js "-H") = true) by (vm_compute; reflexivity).
  exact (conj H1 (conj H2 (conj H3
    (missing_value_error asciiLower asciiUpper _ _ _ _ _ H1 H2 H3)))).
Defined.

Lemma parse_error_messages_witness :
  parse (js "curl ftp://example.com")
    = Throw (js "Error parsing curl command: Invalid URL format")
  ∧ ∃ m', js "Error parsing curl command: Invalid URL format"
          = js "Error parsing curl command: " ++ m'.
Proof.
  assert (H : parse (js "curl ftp://example.com")
    = Throw (js "Error parsing curl command: Invalid URL format"))
    by (vm_compute; reflexivity).
  destruct (parse_error_messages asciiLower asciiUpper _ _ H) as (m' & Hm & _).
  exact (conj H (ex_intro _ m' Hm)).
Defined.

Lemma blank_command_rejected_witness :
  Forall (λ c, isWhiteSpace c = true) [32; 9; 10]
  ∧ parse [32; 9; 10]
    = Throw (js "Error parsing curl command: Command must start with 'curl'").
Proof.
  assert (H : Forall (λ c, isWhiteSpace c = true) [32; 9; 10])
    by (repeat constructor).
  exact (conj H (blank_command_rejected asciiLower asciiUpper _ H)).
Defined.

Lemma forParts_sequential_witness :
  forParts asciiUpper initialRequest [js "-X"; js "put"]
    = Return (RequestData (js "PUT") [] ∅ None ∅)
  ∧ forParts asciiUpper initialRequest
      ([js "-X"; js "put"] ++ [js "https://example.com"])
    = forParts asciiUpper (RequestData (js "PUT") [] ∅ None ∅)
        [js "https://example.com"].
Proof.
  assert (H : forParts asciiUpper initialRequest [js "-X"; js "put"]
    = Return (RequestData (js "PUT") [] ∅ None ∅)) by (vm_compute; reflexivity).
  exact (conj H (forParts_sequential asciiUpper _ _ _ _ H)).
Defined.

Lemma parsed_request_invariant_witness :
  parse (js "curl -d 'a b' https://example.com") = Return (withBody (js "a b"))
  ∧ Forall plainChar (url (withBody (js "a b")))
  ∧ params (withBody (js "a b")) = ∅.
Proof.
  assert (H : parse (js "curl -d 'a b' https://example.com")
              = Return (withBody (js "a b"))) by (vm_compute; reflexivity).
  destruct (parsed_request_invariant asciiLower asciiUpper _ _ H)
    as (_ & Hplain & _ & Hparams).
  exact (conj H (conj Hplain Hparams)).
Defined.

Lemma parsed_body_is_last_data_value_witness :
  parse (js "curl -d first --data second https://example.com")
    = Return (withBody (js "second"))
  ∧ ∃ parts, tokens (js "curl -d first --data second https://example.com")
             = Some parts
      ∧ data (withBody (js "second"))
        = removeQuotes <$> last (flagValues isDataFlag (drop 1 parts)).
Proof.
  assert (H : parse (js "curl -d first --data second https://example.com")
              = Return (withBody (js "second"))) by (vm_compute; reflexivity).
  exact (conj H (parsed_body_is_last_data_value asciiLower asciiUpper _ _ H)).
Defined.

Lemma parsed_headers_are_assignments_witness :
  parse (js "curl -H 'A: 1' -H '__proto__: x' -H 'A: 2' https://example.com")
    = Return (withHeaders {[ js "A" := js "2" ]})
  ∧ ∃ parts,
      tokens (js "curl -H 'A: 1' -H '__proto__: x' -H 'A: 2' https://example.com")
      = Some parts
      ∧ headers (withHeaders {[ js "A" := js "2" ]})
        = foldl (λ m v,
                   if bool_decide (trim (beforeColon (removeQuotes v)) = js "__proto__")
                   then m
                   else <[trim (beforeColon (removeQuotes v)) :=
                           trim (afterColon (removeQuotes v))]> m)
            ∅ (flagValues isHeaderFlag (drop 1 parts))
      ∧ (size (headers (withHeaders {[ js "A" := js "2" ]}))
         ≤ length (flagValues isHeaderFlag (drop 1 parts)))%nat.
Proof.
  assert (H : parse (js "curl -H 'A: 1' -H '__proto__: x' -H 'A: 2' https://example.com")
              = Return (withHeaders {[ js "A" := js "2" ]}))
    by (vm_compute; reflexivity).
  exact (conj H (parsed_headers_are_assignments asciiLower asciiUpper _ _ H)).
Defined.

Lemma method_without_data_flag_witness :
  parse (js "curl -X put --request delete https://example.com")
    = Return (RequestData (js "DELETE") (js "https://example.com") ∅ None ∅)
  ∧ ∃ parts, tokens (js "curl -X put --request delete https://example.com")
             = Some parts
      ∧ (flagValues isDataFlag (drop 1 parts) = [] →
         method (RequestData (js "DELETE") (js "https://example.com") ∅ None ∅)
         = from_option asciiUpper (js "GET")
             (last (flagValues isRequestFlag (drop 1 parts)))).
Proof.
  assert (H : parse (js "curl -X put --request delete https://example.com")
    = Return (RequestData (js "DELETE") (js "https://example.com") ∅ None ∅))
    by (vm_compute; reflexivity).
  exact (conj H (method_without_data_flag asciiLower asciiUpper _ _ H)).
Defined.

Lemma method_without_request_flag_witness :
  parse (js "curl -d x https://example.com") = Return (withBody (js "x"))
  ∧ ∃ parts, tokens (js "curl -d x https://example.com") = Some parts
      ∧ (flagValues isRequestFlag (drop 1 parts) = [] →
         method (withBody (js "x"))
         = match flagValues isDataFlag (drop 1 parts) with
           | [] => js "GET"
           | _ :: _ => js "POST"
           end).
Proof.
  assert (H : parse (js "curl -d x https://example.com")
              = Return (withBody (js "x"))) by (vm_compute; reflexivity).
  exact (conj H (method_without_request_flag asciiLower asciiUpper _ _ H)).
Defined.

Lemma parsed_header_names_trimmed_witness :
  parse (js "curl -H ' Accept : text/plain ' https://example.com")
    = Return (withHeaders {[ js "Accept" := js "text/plain" ]})
  ∧ headers (withHeaders {[ js "Accept" := js "text/plain" ]}) !! js "Accept"
    = Some (js "text/plain")
  ∧ (COLON ∉ js "Accept") ∧ trim (js "Accept") = js "Accept"
  ∧ trim (js "text/plain") = js "text/plain".
Proof.
  assert (H1 : parse (js "curl -H ' Accept : text/plain ' https://example.com")
    = Return (withHeaders {[ js "Accept" := js "text/plain" ]}))
    by (vm_compute; reflexivity).
  assert (H2 : headers (withHeaders {[ js "Accept" := js "text/plain" ]})
                 !! js "Accept" = Some (js "text/plain"))
    by (vm_compute; reflexivity).
  exact (conj H1 (conj H2
    (parsed_header_names_trimmed asciiLower asciiUpper _ _ _ _ H1 H2))).
Defined.

Lemma authentication_by_headers_witness :
  plainURL (url (withHeaders {[ js "Authorization" := js "Basic abc" ]}))
    = Some exampleCom
  ∧ ∃ a, analyzeRequest plainURL
           (withHeaders {[ js "Authorization" := js "Basic abc" ]}) = Some a
      ∧ (present (a_authentication a) = false → type (a_authentication a) = None).
Proof.
  assert (H : plainURL (url (withHeaders {[ js "Authorization" := js "Basic abc" ]}))
              = Some exampleCom) by (vm_compute; reflexivity).
  destruct (authentication_by_headers plainURL _ _ H) as (a & Ha & _ & _ & _ & Hp).
  exact (conj H (ex_intro _ a (conj Ha Hp))).
Defined.

Lemma body_summary_bounds_witness :
  plainURL (url (withBody (replicate 10 233))) = Some exampleCom
  ∧ data (withBody (replicate 10 233)) = Some (replicate 10 233)
  ∧ replicate 10 233 ≠ []
  ∧ Forall (λ c, c < 65536) (replicate 10 233)
  ∧ ∃ a n p, analyzeRequest plainURL (withBody (replicate 10 233)) = Some a
      ∧ a_body a = BodyPresent n p
      ∧ (length (replicate 10 233) ≤ n ≤ 3 * length (replicate 10 233))%nat
      ∧ take 200 p = take 200 (replicate 10 233)
      ∧ ((length (replicate 10 233) ≤ 200)%nat → p = replicate 10 233)
      ∧ ((200 < length (replicate 10 233))%nat → length p = 203%nat).
Proof.
  assert (H1 : plainURL (url (withBody (replicate 10 233))) = Some exampleCom)
    by (vm_compute; reflexivity).
  assert (H2 : data (withBody (replicate 10 233)) = Some (replicate 10 233))
    by reflexivity.
  assert (H3 : replicate 10 233 ≠ []) by done.
  assert (H4 : Forall (λ c, c < 65536) (replicate 10 233))
    by (apply Forall_replicate; reflexivity).
  exact (conj H1 (conj H2 (conj H3 (conj H4
    (body_summary_bounds plainURL _ _ _ H1 H2 H3 H4))))).
Defined.

Lemma response_defaults_witness :
  ∃ a, analyzeResponse answering (plainGET (js "https://example.com")) = Return a
    ∧ encoding a ≠ Single [].
Proof.
  refine (ex_intro _ _ (conj eq_refl
    (proj1 (response_defaults answering (plainGET (js "https://example.com")) _ eq_refl)))).
Defined.

Lemma parse_failure_stops_pipeline_witness :
  parse (curlCommand (idleState (js "curl")))
    = Throw (js "Error parsing curl command: No URL specified in curl command")
  ∧ handleAnalyze asciiLower asciiUpper plainURL invalidURL answering
      (idleState (js "curl"))
    = handleAnalyze asciiLower asciiUpper (λ _, None) invalidURL unreachable
        (idleState (js "curl")).
Proof.
  assert (H : parse (curlCommand (idleState (js "curl")))
    = Throw (js "Error parsing curl command: No URL specified in curl command"))
    by (vm_compute; reflexivity).
  split; [exact H|].
  rewrite (parse_failure_stops_pipeline asciiLower asciiUpper _ _ H
             plainURL invalidURL answering).
  rewrite (parse_failure_stops_pipeline asciiLower asciiUpper _ _ H
             (λ _, None) invalidURL unreachable).
  reflexivity.
Defined.

Lemma invalid_url_stops_pipeline_witness :
  parse (curlCommand (idleState (js "curl https://example.com")))
    = Return (plainGET (js "https://example.com"))
  ∧ (λ _ : list N, @None URLObject) (url (plainGET (js "https://example.com"))) = None
  ∧ error (handleAnalyze asciiLower asciiUpper (λ _, None) invalidURL answering
             (idleState (js "curl https://example.com")))
    = js "Invalid URL".
Proof.
  assert (H1 : parse (curlCommand (idleState (js "curl https://example.com")))
    = Return (plainGET (js "https://example.com"))) by (vm_compute; reflexivity).
  assert (H2 : (λ _ : list N, @None URLObject)
                 (url (plainGET (js "https://example.com"))) = None)
    by reflexivity.
  split; [exact H1|]. split; [exact H2|].
  by rewrite (invalid_url_stops_pipeline asciiLower asciiUpper _ invalidURL
                _ _ H1 H2 answering).
Defined.

Lemma transport_failure_keeps_previous_witness :
  parse (curlCommand (idleState (js "curl https://example.com")))
    = Return (plainGET (js "https://example.com"))
  ∧ is_Some (analyzeRequest plainURL (plainGET (js "https://example.com")))
  ∧ unreachable (plainGET (js "https://example.com")) = Throw (js "Network Error")
  ∧ handleAnalyze asciiLower asciiUpper plainURL invalidURL unreachable
      (idleState (js "curl https://example.com"))
    = {| curlCommand := js "curl https://example.com"; loading := false;
         error := js "Request failed: Network Error";
         analysisData := None; tabValue := 0 |}.
Proof.
  assert (H1 : parse (curlCommand (idleState (js "curl https://example.com")))
    = Return (plainGET (js "https://example.com"))) by (vm_compute; reflexivity).
  destruct (analyzeRequest plainURL (plainGET (js "https://example.com")))
    as [ra|] eqn:H2; [|by vm_compute in H2].
  assert (H3 : unreachable (plainGET (js "https://example.com"))
               = Throw (js "Network Error")) by reflexivity.
  split; [exact H1|]. split; [by eexists|]. split; [exact H3|].
  exact (transport_failure_keeps_previous asciiLower asciiUpper plainURL
           invalidURL unreachable _ _ _ _ H1 H2 H3).
Defined.
